(** * Cron: a shallow embedding of [src/lib/util/Cron.js]

    The class parses a five-field cron pattern into five arrays of numbers
    (constructor, [_normalize], [_parseString], [_parsePart], [_range]) and
    searches for the next date matching them ([next]).

    Conventions of the embedding.
    - A JavaScript number that is an integer is a [Z]; a number that may be
      [NaN] (or a variable that may be [undefined]) is an [option Z] with
      [None] for [NaN]/[undefined].
    - The source computes with IEEE doubles, the embedding with integers.
      The two agree on the safe integers, those up to [MAX_SAFE_INTEGER]
      = 2^53 - 1: there [parseInt] of a run of digits is its decimal value,
      and [-], [Math.floor(a / b)], [*] and [+] give the integer results
      written here.  Beyond, JavaScript rounds (2^53 + 1 is read as 2^53)
      and from 2^1024 on gives [Infinity], which the embedding does not
      follow: the statements about numbers taken from a text assume them
      safe ([written_safe]).  The time values of a [Date] are safe.
    - An array is a [list].  The language's bound on the length of an array
      is in the model: [new Array(n)] throws a [RangeError] from n = 2^32
      on.  The engine's limits on memory, on call-stack depth and on the
      number of arguments of a call are not.
    - A [throw] is the [Throw] outcome of the [result] type.
    - [next] recurses without a bound in the source; here it takes a [fuel]
      and answers [None] when the fuel runs out before a [return].
    - A [Date] is its time value: milliseconds since the epoch, [None] for an
      invalid date. *)

From Stdlib Require Import ZArith List String Ascii Bool Lia.
From Stdlib Require Import DecimalString DecimalPos Sorted.
Import ListNotations.

Local Open Scope string_scope.
Local Open Scope Z_scope.

(** ** Outcomes of fallible code *)

Inductive error : Type :=
| InvalidCron   (* new Error('Invalid Cron Provided') *)
| TypeError     (* property access or destructuring of undefined / null *)
| RangeError.   (* new Array(n) with an invalid length *)

Inductive result (A : Type) : Type :=
| Ok (a : A)
| Throw (e : error).

Arguments Ok {A} a.
Arguments Throw {A} e.

Definition bind {A B : Type} (r : result A) (k : A -> result B) : result B :=
  match r with
  | Ok a => k a
  | Throw e => Throw e
  end.

Notation "x <- r ;; k" := (bind r (fun x => k))
  (at level 61, r at next level, right associativity).

(** A number that may be [NaN]; a variable that may be [undefined]. *)
Definition num : Type := option Z.

(** ** Strings *)

(** [s.split(sep)] for a one-character separator. *)
Fixpoint split (sep : ascii) (s : string) : list string :=
  match s with
  | EmptyString => [EmptyString]
  | String c s' =>
      if Ascii.eqb c sep then EmptyString :: split sep s'
      else match split sep s' with
           | [] => [String c EmptyString]
           | p :: ps => String c p :: ps
           end
  end.

(** [parts.join(sep)]. *)
Fixpoint join (sep : string) (parts : list string) : string :=
  match parts with
  | [] => EmptyString
  | [p] => p
  | p :: ps => p ++ sep ++ join sep ps
  end.

(** [s.includes(c)] for a one-character needle. *)
Fixpoint includes_char (c : ascii) (s : string) : bool :=
  match s with
  | EmptyString => false
  | String c' s' => Ascii.eqb c' c || includes_char c s'
  end.

Definition is_digit (c : ascii) : bool :=
  let n := nat_of_ascii c in (48 <=? n)%nat && (n <=? 57)%nat.

Definition digit_value (c : ascii) : Z := Z.of_nat (nat_of_ascii c) - 48.

Fixpoint all_digits (s : string) : bool :=
  match s with
  | EmptyString => true
  | String c s' => is_digit c && all_digits s'
  end.

(** The value of the leading run of decimal digits of [s], from [acc]. *)
Fixpoint parse_digits (acc : Z) (s : string) : Z :=
  match s with
  | EmptyString => acc
  | String c s' =>
      if is_digit c then parse_digits (10 * acc + digit_value c) s' else acc
  end.

(** [Number.MAX_SAFE_INTEGER]: up to it the integers are doubles, and the
    arithmetic of doubles on them is that of integers. *)
Definition MAX_SAFE_INTEGER : Z := 9007199254740991.

(** [parseInt(s)] on a capture of [partRegex].  A capture is a non-empty run
    of decimal digits (see [partRegex_exec_digits] below), on which [parseInt]
    reads the decimal value and is never [NaN]; the numbers of [allowedNum],
    which the source also passes through [parseInt], are left as they are.
    This is the result of the source for a value up to [MAX_SAFE_INTEGER];
    a larger one the source rounds to a double. *)
Definition parseInt (s : string) : Z := parse_digits 0 s.

(** [parseInt] of a capture that may be [undefined]: [parseInt(undefined)] is
    [NaN]. *)
Definition parseInt_opt (s : option string) : num :=
  match s with
  | Some s => Some (parseInt s)
  | None => None
  end.

(** [x || d] on a number: [NaN] and [0] are falsy.  The right operand is
    evaluated only then, so it is the one that may throw. *)
Definition or_else (x : num) (d : result Z) : result Z :=
  match x with
  | Some v => if v =? 0 then d else Ok v
  | None => d
  end.

(** ** Constants of [./constants] (CRON) *)

(** Modelled from the spec: [allowedNum] of [constants.js], which is not
    under src/.  The domain bounds of the five fields, by position:
    minutes 0-59, hours 0-23, day-of-month 1-31, month 1-12,
    day-of-week 0-6.  A position outside the table reads [undefined]. *)
Definition allowedNum (id : nat) : option (Z * Z) :=
  match id with
  | 0%nat => Some (0, 59)
  | 1%nat => Some (0, 23)
  | 2%nat => Some (1, 31)
  | 3%nat => Some (1, 12)
  | 4%nat => Some (0, 6)
  | _ => None
  end.

(** [allowedNum[id][1]]: a [TypeError] when [allowedNum[id]] is undefined. *)
Definition allowedNum_max (id : nat) : result Z :=
  match allowedNum id with
  | Some (_, hi) => Ok hi
  | None => Throw TypeError
  end.

(** Modelled from the spec: [day] of [constants.js], which is not under
    src/: one day in milliseconds ("recurse with referenceMoment + 1 day"). *)
Definition day : Z := 86400000.

(** The capture groups [wild, min, max, step] of a match of [partRegex].
    The wildcard and the number are alternatives of the pattern, and the
    upper end of a range comes only after a number. *)
Inductive part_match : Type :=
| MWild (step : option string)
| MNum (min : string) (max : option string) (step : option string).

(** Splits [s] at the first occurrence of [sep], if any. *)
Fixpoint cut (sep : ascii) (s : string) : string * option string :=
  match s with
  | EmptyString => (EmptyString, None)
  | String c s' =>
      if Ascii.eqb c sep then (EmptyString, Some s')
      else let '(a, b) := cut sep s' in (String c a, b)
  end.

Definition is_number (s : string) : bool :=
  match s with
  | EmptyString => false
  | _ => all_digits s
  end.

(** Modelled from the spec: [partRegex] of [constants.js], which is not under
    src/.  The grammar of a subpart: a wildcard [*], a bare integer, a range
    [min-max], a stepped range [min-max/step] or a stepped wildcard [*/step].
    [None] is the [null] that [exec] returns when the text does not match. *)
Definition partRegex_exec (s : string) : option part_match :=
  let '(body, step) := cut "/" s in
  let step_ok := match step with Some st => is_number st | None => true end in
  if negb step_ok then None
  else if String.eqb body "*" then Some (MWild step)
  else
    let '(lo, hi) := cut "-" body in
    match hi with
    | None =>
        match step with
        | None => if is_number lo then Some (MNum lo None None) else None
        | Some _ => None
        end
    | Some hi =>
        if is_number lo && is_number hi then Some (MNum lo (Some hi) step)
        else None
    end.

(** ** [_range] (lines 123-132) *)

(** The largest length of an array: 2^32 - 1. *)
Definition MAX_ARRAY_LENGTH : Z := 4294967295.

(** [new Array(Math.floor((max - min) / step) + 1)] throws a [RangeError]
    when the length is not an integer from 0 to 2^32 - 1: [step = 0] makes
    it [Infinity] or [NaN], a negative [step] can make it negative, distant
    bounds make it too large. *)
Definition _range (min max step : Z) : result (list Z) :=
  let '(min, max) := if max <? min then (max, min) else (min, max) in
  if step =? 0 then Throw RangeError
  else
    let len := (max - min) / step + 1 in
    if (len <? 0) || (MAX_ARRAY_LENGTH <? len) then Throw RangeError
    else Ok (map (fun i => min + Z.of_nat i * step) (seq 0 (Z.to_nat len))).

(** ** [_parsePart] (lines 99-112) *)

(** The statements after [partRegex.exec]: lines 109-111. *)
Definition parse_match (m : part_match) (id : nat) : result (list Z) :=
  match m with
  | MWild step =>
      match allowedNum id with
      | None => Throw TypeError
      | Some (lo, hi) =>
          max <- or_else (Some hi) (allowedNum_max id) ;;
          st <- or_else (parseInt_opt step) (Ok 1) ;;
          _range lo max st
      end
  | MNum min max step =>
      match max, step with
      | None, None => Ok [parseInt min]
      | _, _ =>
          max' <- or_else (parseInt_opt max) (allowedNum_max id) ;;
          st <- or_else (parseInt_opt step) (Ok 1) ;;
          _range (parseInt min) max' st
      end
  end.

(** The branch of [_parsePart] for a part without a comma: lines 107-111.
    Destructuring the [null] of a failed match throws a [TypeError]. *)
Definition _parsePart_single (cronPart : string) (id : nat) : result (list Z) :=
  match partRegex_exec cronPart with
  | None => Throw TypeError
  | Some m => parse_match m id
  end.

(** The loop of line 102: the pieces are parsed in order and pushed on
    [res]; the first failure aborts. *)
Fixpoint parse_pieces (pieces : list string) (id : nat) (res : list Z)
  : result (list Z) :=
  match pieces with
  | [] => Ok res
  | p :: ps =>
      r <- _parsePart_single p id ;;
      parse_pieces ps id (res ++ r)
  end.

(** [[...new Set(res)]]: the values of [res] in order of first insertion. *)
Fixpoint set_values (seen : list Z) (res : list Z) : list Z :=
  match res with
  | [] => []
  | x :: xs =>
      if existsb (Z.eqb x) seen then set_values seen xs
      else x :: set_values (x :: seen) xs
  end.

Fixpoint insert_num (x : Z) (l : list Z) : list Z :=
  match l with
  | [] => [x]
  | y :: ys => if x - y <=? 0 then x :: l else y :: insert_num x ys
  end.

(** [.sort((a, b) => a - b)]. *)
Definition sort_num (l : list Z) : list Z := fold_right insert_num [] l.

(** [_parsePart].  The recursive calls of line 102 are on the pieces of
    [cronPart.split(',')], which hold no comma, so each of them takes the
    second branch: [_parsePart_single]. *)
Definition _parsePart (cronPart : string) (id : nat) : result (list Z) :=
  if includes_char "," cronPart then
    res <- parse_pieces (split "," cronPart) id [] ;;
    Ok (sort_num (set_values [] res))
  else _parsePart_single cronPart id.

(** ** [_parseString] (lines 85-89) *)

(** [parts.map(f)] for an [f] that may throw; [f] receives the index. *)
Fixpoint map_indexed {A B : Type} (f : A -> nat -> result B) (i : nat)
  (l : list A) : result (list B) :=
  match l with
  | [] => Ok []
  | x :: xs =>
      y <- f x i ;;
      ys <- map_indexed f (S i) xs ;;
      Ok (y :: ys)
  end.

Definition _parseString (cron : string) : result (list (list Z)) :=
  let parts := split " " cron in
  if negb (Nat.eqb (List.length parts) 5) then Throw InvalidCron
  else map_indexed _parsePart 0 parts.

(** ** Dates

    The time arithmetic of a JavaScript [Date] in UTC (ECMAScript, "Time
    Values and Time Range"), on the time value in milliseconds. *)

Definition msPerDay : Z := 86400000.
Definition msPerHour : Z := 3600000.
Definition msPerMinute : Z := 60000.

Definition Day (t : Z) : Z := t / msPerDay.
Definition TimeWithinDay (t : Z) : Z := t mod msPerDay.

(** The day number of the first day of year [y]. *)
Definition DayFromYear (y : Z) : Z :=
  365 * (y - 1970) + (y - 1969) / 4 - (y - 1901) / 100 + (y - 1601) / 400.

Definition leap_year (y : Z) : bool :=
  (y mod 4 =? 0) && (negb (y mod 100 =? 0) || (y mod 400 =? 0)).

Definition DaysInYear (y : Z) : Z := if leap_year y then 366 else 365.

(** The year a day number falls in: the largest [y] with
    [DayFromYear y <= d] (lemma [YearFromDay_spec]).  The mean length of a
    year gives an estimate that is off by one at most. *)
Definition YearFromDay (d : Z) : Z :=
  let y := 1970 + (400 * d) / 146097 in
  if d <? DayFromYear y then y - 1
  else if DayFromYear (y + 1) <=? d then y + 1
  else y.

Definition InLeapYear (d : Z) : Z := if leap_year (YearFromDay d) then 1 else 0.

Definition DayWithinYear (d : Z) : Z := d - DayFromYear (YearFromDay d).

(** The day within the year on which month [m] (0-11) starts. *)
Definition month_start (m leap : Z) : Z :=
  if m =? 0 then 0
  else if m =? 1 then 31
  else if m =? 2 then 59 + leap
  else if m =? 3 then 90 + leap
  else if m =? 4 then 120 + leap
  else if m =? 5 then 151 + leap
  else if m =? 6 then 181 + leap
  else if m =? 7 then 212 + leap
  else if m =? 8 then 243 + leap
  else if m =? 9 then 273 + leap
  else if m =? 10 then 304 + leap
  else 334 + leap.

Definition MonthFromDay (d : Z) : Z :=
  let w := DayWithinYear d in
  let leap := InLeapYear d in
  if w <? 31 then 0
  else if w <? 59 + leap then 1
  else if w <? 90 + leap then 2
  else if w <? 120 + leap then 3
  else if w <? 151 + leap then 4
  else if w <? 181 + leap then 5
  else if w <? 212 + leap then 6
  else if w <? 243 + leap then 7
  else if w <? 273 + leap then 8
  else if w <? 304 + leap then 9
  else if w <? 334 + leap then 10
  else 11.

Definition DateFromDay (d : Z) : Z :=
  DayWithinYear d - month_start (MonthFromDay d) (InLeapYear d) + 1.

Definition WeekDayOfDay (d : Z) : Z := (d + 4) mod 7.

Definition YearFromTime (t : Z) : Z := YearFromDay (Day t).
Definition MonthFromTime (t : Z) : Z := MonthFromDay (Day t).
Definition DateFromTime (t : Z) : Z := DateFromDay (Day t).
Definition WeekDay (t : Z) : Z := WeekDayOfDay (Day t).
Definition HourFromTime (t : Z) : Z := (t / msPerHour) mod 24.
Definition MinFromTime (t : Z) : Z := (t / msPerMinute) mod 60.

Definition MakeTime (hour min sec ms : Z) : Z :=
  hour * msPerHour + min * msPerMinute + sec * 1000 + ms.

Definition MakeDay (year month date : Z) : Z :=
  let ym := year + month / 12 in
  let mn := month mod 12 in
  DayFromYear ym + month_start mn (if leap_year ym then 1 else 0) + date - 1.

Definition MakeDate (d time : Z) : Z := d * msPerDay + time.

Definition maxTime : Z := 8640000000000000.

(** A time value outside the range of [Date] becomes [NaN]. *)
Definition TimeClip (t : Z) : num :=
  if Z.abs t <=? maxTime then Some t else None.

(** A [Date] object, as its time value: [None] is an invalid date. *)
Definition Date : Type := num.

(** [new Date(value)]. *)
Definition new_Date (value : num) : Date :=
  match value with
  | Some t => TimeClip t
  | None => None
  end.

Definition getTime (d : Date) : num := d.

Definition getUTCFullYear (d : Date) : num := option_map YearFromTime d.
Definition getUTCMonth (d : Date) : num := option_map MonthFromTime d.
Definition getUTCDate (d : Date) : num := option_map DateFromTime d.
Definition getUTCDay (d : Date) : num := option_map WeekDay d.
Definition getUTCHours (d : Date) : num := option_map HourFromTime d.
Definition getUTCMinutes (d : Date) : num := option_map MinFromTime d.

(** [x + k] with a possibly [NaN] left operand. *)
Definition num_add (x : num) (k : Z) : num := option_map (fun v => v + k) x.

(** [Date.UTC(year, month, date, hours, minutes)].  An argument that is [NaN]
    or [undefined] makes the result [NaN]; a year from 0 to 99 stands for
    1900 + year. *)
Definition Date_UTC (year month date hours minutes : num) : num :=
  match year, month, date, hours, minutes with
  | Some y, Some m, Some dt, Some h, Some mi =>
      let yr := if (0 <=? y) && (y <=? 99) then 1900 + y else y in
      TimeClip (MakeDate (MakeDay yr m dt) (MakeTime h mi 0 0))
  | _, _, _, _, _ => None
  end.

(** ** Arrays of numbers *)

(** [arr.includes(x)]: [NaN] is not in an array of integers. *)
Definition includes (arr : list Z) (x : num) : bool :=
  match x with
  | Some v => existsb (Z.eqb v) arr
  | None => false
  end.

(** [arr.findIndex(p)], with [None] for -1. *)
Fixpoint findIndex {A : Type} (p : A -> bool) (arr : list A) : option nat :=
  match arr with
  | [] => None
  | x :: xs => if p x then Some 0%nat else option_map S (findIndex p xs)
  end.

(** [a >= b] where [b] may be [NaN]: a comparison with [NaN] is false. *)
Definition geq_num (a : Z) (b : num) : bool :=
  match b with
  | Some v => v <=? a
  | None => false
  end.

(** ** The class *)

Record Cron : Type := mkCron {
  cron : string;
  normalized : string;
  minutes : list Z;
  hours : list Z;
  days : list Z;
  months : list Z;
  dows : list Z
}.

(** ** [next] (lines 26-50) *)

Fixpoint next (fuel : nat) (this : Cron) (zDay : Date) (origin : bool)
  : option Date :=
  match fuel with
  | O => None
  | S fuel =>
      if negb (includes (days this) (getUTCDate zDay))
         || negb (includes (months this) (num_add (getUTCMonth zDay) 1))
         || negb (includes (dows this) (getUTCDay zDay))
      then next fuel this (new_Date (num_add (getTime zDay) day)) false
      else
        let hour := hd_error (hours this) in
        let minute := hd_error (minutes this) in
        let build (hour minute : num) : option Date :=
          Some (new_Date (Date_UTC (getUTCFullYear zDay) (getUTCMonth zDay)
                            (getUTCDate zDay) hour minute)) in
        if origin then
          let now := new_Date (num_add (getTime zDay) 60000) in
          match findIndex (fun hr => geq_num hr (getUTCHours now)) (hours this) with
          | None => next fuel this (new_Date (num_add (getTime zDay) day)) false
          | Some hourIndex =>
              match findIndex (fun min => geq_num min (getUTCMinutes now))
                      (minutes this) with
              | None =>
                  match nth_error (hours this) (hourIndex + 1) with
                  | None =>
                      next fuel this (new_Date (num_add (getTime zDay) day)) false
                  | Some hour => build (Some hour) minute
                  end
              | Some minuteIndex =>
                  build (nth_error (hours this) hourIndex)
                        (nth_error (minutes this) minuteIndex)
              end
          end
        else build hour minute
  end.

(** ** [_normalize] (lines 59-76) *)

(** [String(n)] for an integer, in decimal digits (as JavaScript writes
    the integers below 10^21). *)
Definition string_of_Z (n : Z) : string := NilZero.string_of_int (Z.to_int n).

Definition string_of_num (x : num) : string :=
  match x with
  | Some v => string_of_Z v
  | None => "NaN"
  end.

Definition lower_char (c : ascii) : ascii :=
  let n := nat_of_ascii c in
  if (65 <=? n)%nat && (n <=? 90)%nat then ascii_of_nat (n + 32) else c.

(** [s.toLowerCase()], on ASCII letters. *)
Fixpoint toLowerCase (s : string) : string :=
  match s with
  | EmptyString => EmptyString
  | String c s' => String (lower_char c) (toLowerCase s')
  end.

(** Modelled from the spec: [predefined] of [constants.js], which is not
    under src/.  The aliases for the yearly, monthly, weekly, daily and hourly
    cadences with their five-field expansions; the spec leaves the spelling
    of the aliases to this table, which takes the customary one. *)
Definition predefined : list (string * string) :=
  [ ("@annually", "0 0 1 1 *");
    ("@yearly", "0 0 1 1 *");
    ("@monthly", "0 0 1 * *");
    ("@weekly", "0 0 * * 0");
    ("@daily", "0 0 * * *");
    ("@hourly", "0 * * * *") ].

Fixpoint lookup {A : Type} (k : string) (table : list (string * A)) : option A :=
  match table with
  | [] => None
  | (k', v) :: rest => if String.eqb k k' then Some v else lookup k rest
  end.

(** Modelled from the spec: [tokens] of [constants.js], which is not under
    src/.  Month names and abbreviations stand for 1-12, weekday names and
    abbreviations for 0-6; a name comes before its abbreviation, so that the
    alternation of [tokensRegex] does not match inside a longer token. *)
Definition tokens : list (string * Z) :=
  [ ("january", 1); ("february", 2); ("march", 3); ("april", 4);
    ("june", 6); ("july", 7); ("august", 8); ("september", 9);
    ("october", 10); ("november", 11); ("december", 12);
    ("jan", 1); ("feb", 2); ("mar", 3); ("apr", 4); ("may", 5); ("jun", 6);
    ("jul", 7); ("aug", 8); ("sep", 9); ("oct", 10); ("nov", 11); ("dec", 12);
    ("sunday", 0); ("monday", 1); ("tuesday", 2); ("wednesday", 3);
    ("thursday", 4); ("friday", 5); ("saturday", 6);
    ("sun", 0); ("mon", 1); ("tue", 2); ("wed", 3); ("thu", 4); ("fri", 5);
    ("sat", 6) ].

Fixpoint starts_with (p s : string) : bool :=
  match p, s with
  | EmptyString, _ => true
  | String a p', String b s' => Ascii.eqb a b && starts_with p' s'
  | String _ _, EmptyString => false
  end.

(** The first alternative of [tokensRegex] that matches at the start of [s]. *)
Fixpoint match_token (table : list (string * Z)) (s : string)
  : option (string * Z) :=
  match table with
  | [] => None
  | (k, v) :: rest =>
      if starts_with k s then Some (k, v) else match_token rest s
  end.

(** [cron.replace(tokensRegex, match => tokens[match])]: a global replace,
    scanning from the left; [skip] counts the characters of a match that are
    still to be consumed. *)
Fixpoint replace_tokens (skip : nat) (s : string) : string :=
  match s with
  | EmptyString => EmptyString
  | String c s' =>
      match skip with
      | S k => replace_tokens k s'
      | O =>
          match match_token tokens s with
          | Some (k, v) =>
              string_of_Z v ++ replace_tokens (String.length k - 1) s'
          | None => String c (replace_tokens 0 s')
          end
      end
  end.

(** The callback of [map] at lines 62-74.  [now] is the [new Date()] of line
    61; [random i] is the integer that
    [Math.floor(Math.random() * (allowedNum[i][1] + 1))] comes to at position
    [i] once reduced into [0 .. allowedNum[i][1]]. *)
Definition normalize_field (now : Date) (random : nat -> Z) (val : string)
  (i : nat) : result string :=
  if String.eqb val "h" then
    hi <- allowedNum_max i ;;
    Ok (string_of_Z (random i mod (hi + 1)))
  else if String.eqb val "?" then
    match i with
    | 0%nat => Ok (string_of_num (getUTCMinutes now))
    | 1%nat => Ok (string_of_num (getUTCHours now))
    | 2%nat => Ok (string_of_num (getUTCDate now))
    | 3%nat => Ok (string_of_num (getUTCMonth now))
    | 4%nat => Ok (string_of_num (getUTCDay now))
    | _ => Ok val
    end
  else Ok val.

(** What [_normalize] returns: a text or, for a key that [predefined] has
    from [Object.prototype], the function or object found there. *)
Inductive value : Type :=
| Str (s : string)
| Inherited (key : string).

(** The properties that an object literal, as [predefined] is, inherits
    from [Object.prototype]: [cron in predefined] at line 60 holds for
    these too. *)
Definition Object_prototype_keys : list string :=
  [ "constructor"; "hasOwnProperty"; "isPrototypeOf"; "propertyIsEnumerable";
    "toLocaleString"; "toString"; "valueOf"; "__proto__";
    "__defineGetter__"; "__defineSetter__"; "__lookupGetter__";
    "__lookupSetter__" ].

Definition _normalize (now : Date) (random : nat -> Z) (cron : string)
  : result value :=
  match lookup cron predefined with
  | Some expansion => Ok (Str expansion)
  | None =>
      if existsb (String.eqb cron) Object_prototype_keys
      then Ok (Inherited cron)
      else
        fields <- map_indexed (normalize_field now random) 0 (split " " cron) ;;
        Ok (Str (replace_tokens 0 (join " " fields)))
  end.

(** ** The constructor (lines 13-17) *)

(** [new Cron(cron)].  When [_normalize] returns no text, the call of
    [cron.split] at line 86 throws a [TypeError]: a function or object of
    [Object.prototype] has no [split].  The destructuring of line 16 binds
    the five arrays that [_parseString] returns (it returns five or throws,
    see [_parseString_length]). *)
Definition new_Cron (now : Date) (random : nat -> Z) (cron : string)
  : result Cron :=
  let cron := toLowerCase cron in
  normalized <- _normalize now random cron ;;
  match normalized with
  | Inherited _ => Throw TypeError
  | Str normalized =>
      parts <- _parseString normalized ;;
      match parts with
      | [minutes; hours; days; months; dows] =>
          Ok (mkCron cron normalized minutes hours days months dows)
      | _ => Throw TypeError
      end
  end.

(** ** Specification vocabulary *)

(** The elements [lo, lo + step, lo + 2 step, ...], [n] of them. *)
Definition progression (lo step : Z) (n : nat) : list Z :=
  map (fun i => lo + Z.of_nat i * step) (seq 0 n).

Definition strictly_ascending (l : list Z) : Prop := StronglySorted Z.lt l.

Definition within (lo hi v : Z) : bool := (lo <=? v) && (v <=? hi).

(** The bare integer or the ends of the range of a match are in [lo, hi]. *)
Definition match_within (lo hi : Z) (m : part_match) : bool :=
  match m with
  | MWild _ => true
  | MNum mn mx _ =>
      within lo hi (parseInt mn)
      && match mx with
         | Some x => within lo hi (parseInt x)
         | None => true
         end
  end.

(** Every number written as a bare integer or as an end of a range in the
    field text is in [lo, hi]. *)
Definition written_within (lo hi : Z) (field : string) : bool :=
  forallb (fun piece =>
             match partRegex_exec piece with
             | Some m => match_within lo hi m
             | None => true
             end)
          (split "," field).

(** The arguments of the call of [_range] at line 111 for a match, [None]
    when line 110 returns before it. *)
Definition range_args (m : part_match) (id : nat)
  : result (option (Z * Z * Z)) :=
  match m with
  | MWild step =>
      match allowedNum id with
      | None => Throw TypeError
      | Some (lo, hi) =>
          max <- or_else (Some hi) (allowedNum_max id) ;;
          st <- or_else (parseInt_opt step) (Ok 1) ;;
          Ok (Some (lo, max, st))
      end
  | MNum min None None => Ok None
  | MNum min max step =>
      max' <- or_else (parseInt_opt max) (allowedNum_max id) ;;
      st <- or_else (parseInt_opt step) (Ok 1) ;;
      Ok (Some (parseInt min, max', st))
  end.

(** The step capture of a match. *)
Definition step_of (m : part_match) : option string :=
  match m with
  | MWild step => step
  | MNum _ _ step => step
  end.

(** The five arrays of a [Cron], by field position. *)
Definition fields (c : Cron) : list (list Z) :=
  [minutes c; hours c; days c; months c; dows c].

(** A day, by its day number, qualifies when its day of the month, its
    month and its weekday are in the respective arrays (line 27). *)
Definition qualifies (c : Cron) (d : Z) : bool :=
  includes (days c) (Some (DateFromDay d))
  && includes (months c) (Some (MonthFromDay d + 1))
  && includes (dows c) (Some (WeekDayOfDay d)).

(** Day [d + n] is the first day from [d] on that qualifies. *)
Definition first_qualifying (c : Cron) (d : Z) (n : nat) : Prop :=
  qualifies c (d + Z.of_nat n) = true
  /\ forall k, (k < n)%nat -> qualifies c (d + Z.of_nat k) = false.

(** The date that line 49 builds from the year, month and day of the month
    of day [d] and from [hour] and [minute]. *)
Definition at_day (d : Z) (hour minute : num) : Date :=
  new_Date (Date_UTC (Some (YearFromDay d)) (Some (MonthFromDay d))
              (Some (DateFromDay d)) hour minute).

(** The time value of [hour]:[minute] on day [d]. *)
Definition time_on (d hour minute : Z) : Z :=
  d * msPerDay + hour * msPerHour + minute * msPerMinute.

(** [Date.UTC] reads a year from 0 to 99 as 1900 + year. *)
Definition two_digit_year (d : Z) : Prop := 0 <= YearFromDay d <= 99.

(** The days all of whose minutes are time values in the range of [Date]. *)
Definition day_in_range (d : Z) : Prop := -100000000 <= d < 100000000.

Definition smallest (x : Z) (l : list Z) : Prop := In x l /\ Forall (Z.le x) l.

(** The invariant of one parsed array: non-empty, strictly ascending, within
    the domain of its field. *)
Definition valid_field (id : nat) (l : list Z) : Prop :=
  l <> [] /\ strictly_ascending l
  /\ exists lo hi, allowedNum id = Some (lo, hi)
                   /\ Forall (fun v => lo <= v <= hi) l.

Definition valid_schedule (c : Cron) : Prop :=
  valid_field 0 (minutes c) /\ valid_field 1 (hours c)
  /\ valid_field 2 (days c) /\ valid_field 3 (months c)
  /\ valid_field 4 (dows c).

(** A time value at minute resolution all of whose components are in the
    arrays of the schedule. *)
Definition matches (c : Cron) (r : Z) : Prop :=
  r mod msPerMinute = 0
  /\ In (MinFromTime r) (minutes c)
  /\ In (HourFromTime r) (hours c)
  /\ In (DateFromTime r) (days c)
  /\ In (MonthFromTime r + 1) (months c)
  /\ In (WeekDay r) (dows c).

(** The start of the search of an origin call: one minute after the
    reference moment, at minute resolution. *)
Definition search_start (t : Z) : Z := (t + 60000) / msPerMinute * msPerMinute.

(** The reference moments at which the origin call searches as intended:
    the reference day does not qualify, or one minute later it is still the
    same day and then the hour is in the hour array, or beyond all of it, or
    the minute is not beyond any element of the minute array. *)
Definition well_placed (c : Cron) (t : Z) : Prop :=
  qualifies c (Day t) = false
  \/ (Day (t + 60000) = Day t
      /\ (In (HourFromTime (t + 60000)) (hours c)
          \/ Forall (fun h => h < HourFromTime (t + 60000)) (hours c)
          \/ Forall (fun m => MinFromTime (t + 60000) <= m) (minutes c))).

(** What an origin call would have to do, read to the letter: return the
    smallest matching time value at or after one minute past the reference
    moment. *)
Definition returns_smallest_after (c : Cron) (t : Z) : Prop :=
  exists fuel r,
    next fuel c (Some t) true = Some (Some r)
    /\ matches c r
    /\ t + 60000 <= r
    /\ forall r', matches c r' -> t + 60000 <= r' -> r <= r'.

(** Decision procedures for the predicates above, on concrete schedules. *)

Fixpoint ascendingb (l : list Z) : bool :=
  match l with
  | [] => true
  | x :: xs => forallb (Z.ltb x) xs && ascendingb xs
  end.

Definition valid_fieldb (id : nat) (l : list Z) : bool :=
  match l, allowedNum id with
  | _ :: _, Some (lo, hi) => ascendingb l && forallb (within lo hi) l
  | _, _ => false
  end.

Definition valid_scheduleb (c : Cron) : bool :=
  valid_fieldb 0 (minutes c) && valid_fieldb 1 (hours c)
  && valid_fieldb 2 (days c) && valid_fieldb 3 (months c)
  && valid_fieldb 4 (dows c).

Definition first_qualifyingb (c : Cron) (d : Z) (n : nat) : bool :=
  qualifies c (d + Z.of_nat n)
  && forallb (fun k => negb (qualifies c (d + Z.of_nat k))) (seq 0 n).

(** Schedules used as examples: what the constructor makes of
    ["0 9 * * mon"], ["*/15 * * * *"] and ["0 0 31 2 *"]. *)
Definition every_monday_at_nine : Cron :=
  mkCron "0 9 * * mon" "0 9 * * 1"
    [0] [9] (progression 1 1 31) (progression 1 1 12) [1].

Definition every_quarter_hour : Cron :=
  mkCron "*/15 * * * *" "*/15 * * * *"
    [0; 15; 30; 45] (progression 0 1 24) (progression 1 1 31)
    (progression 1 1 12) (progression 0 1 7).

Definition february_31st : Cron :=
  mkCron "0 0 31 2 *" "0 0 31 2 *"
    [0] [0] [31] [2] (progression 0 1 7).

(** The number of occurrences of [c] in [s]. *)
Fixpoint count_char (c : ascii) (s : string) : nat :=
  match s with
  | EmptyString => 0
  | String a s' => (if Ascii.eqb a c then 1 else 0) + count_char c s'
  end.

(** The characters of an expression without alias, placeholder or token:
    digits, [*], [,], [-], [/] and the space. *)
Definition plain_char (c : ascii) : bool :=
  is_digit c || Ascii.eqb c "*" || Ascii.eqb c "," || Ascii.eqb c "-"
  || Ascii.eqb c "/" || Ascii.eqb c " ".

Fixpoint all_plain (s : string) : bool :=
  match s with
  | EmptyString => true
  | String c s' => plain_char c && all_plain s'
  end.

Definition is_lower (c : ascii) : bool :=
  let n := nat_of_ascii c in (97 <=? n)%nat && (n <=? 122)%nat.

(** Every comma-separated piece of the field matches [partRegex]. *)
Definition pieces_match (field : string) : Prop :=
  Forall (fun piece => partRegex_exec piece <> None) (split "," field).

(** A number that the source holds exactly. *)
Definition safe (n : Z) : bool := n <=? MAX_SAFE_INTEGER.

Definition safe_capture (capture : option string) : bool :=
  match capture with
  | Some s => safe (parseInt s)
  | None => true
  end.

(** The bare integer, or the ends of the range, and the step of a match are
    safe integers. *)
Definition match_safe (m : part_match) : bool :=
  match m with
  | MWild step => safe_capture step
  | MNum mn mx step => safe (parseInt mn) && safe_capture mx && safe_capture step
  end.

(** Every number written in the field text is a safe integer. *)
Definition written_safe (field : string) : bool :=
  forallb (fun piece =>
             match partRegex_exec piece with
             | Some m => match_safe m
             | None => true
             end)
          (split "," field).

(** Every number written in the expression is a safe integer. *)
Definition expression_safe (text : string) : bool :=
  forallb written_safe (split " " text).

(** The length of the array that [_range] asks for at line 129, for a step
    of at least 1. *)
Definition range_count (a b step : Z) : Z :=
  (Z.max a b - Z.min a b) / step + 1.

(** The range of a match is not longer than an array can be. *)
Definition range_fits (m : part_match) (id : nat) : bool :=
  match range_args m id with
  | Ok (Some (a, b, st)) => range_count a b st <=? MAX_ARRAY_LENGTH
  | _ => true
  end.

(** No comma-separated piece of the field is a range longer than an array
    can be. *)
Definition pieces_fit (field : string) (id : nat) : Prop :=
  Forall (fun piece =>
            match partRegex_exec piece with
            | Some m => range_fits m id = true
            | None => True
            end)
         (split "," field).



(** * Properties *)

(** ** The embedding on examples *)

Example parseString_ex1 :
  _parseString "0 0 * * *" =
  Ok [[0]; [0]; map Z.of_nat (seq 1 31); map Z.of_nat (seq 1 12);
      [0; 1; 2; 3; 4; 5; 6]].
Proof. vm_compute. reflexivity. Qed.

Example parsePart_ex_list : _parsePart "5,1,3" 0 = Ok [1; 3; 5].
Proof. reflexivity. Qed.

Example parsePart_ex_step : _parsePart "*/15" 0 = Ok [0; 15; 30; 45].
Proof. reflexivity. Qed.

Example parsePart_ex_bad : _parsePart "a" 0 = Throw TypeError.
Proof. reflexivity. Qed.

Example parsePart_ex_long : _parsePart "0-4294967295" 0 = Throw RangeError.
Proof. reflexivity. Qed.

(** Numbers beyond the safe integers are not followed: the source reads
    "9007199254740993" as 2^53.  A range of safe integers can still be
    longer than an array. *)
Example written_safe_ex :
  written_safe "5,10-20/3" = true
  /\ written_safe "9007199254740993" = false
  /\ written_safe "9007199254740992-9007199254740996" = false
  /\ written_safe "0-4294967295" = true
  /\ range_fits (MNum "0" (Some "4294967295") None) 0 = false.
Proof. repeat split; reflexivity. Qed.

Example new_Cron_ex_inherited (now : Date) (random : nat -> Z) :
  _normalize now random "constructor" = Ok (Inherited "constructor")
  /\ new_Cron now random "constructor" = Throw TypeError
  /\ new_Cron now random "__proto__" = Throw TypeError.
Proof. repeat split; reflexivity. Qed.

Example Date_UTC_ex1 :
  Date_UTC (Some 2024) (Some 0) (Some 1) (Some 0) (Some 0) = Some 1704067200000.
Proof. reflexivity. Qed.

Example getters_ex1 :
  let d : Date := Some 1709567999999 in (* 2024-03-04T15:59:59.999Z, a Monday *)
  (getUTCFullYear d, getUTCMonth d, getUTCDate d, getUTCDay d,
   getUTCHours d, getUTCMinutes d)
  = (Some 2024, Some 2, Some 4, Some 1, Some 15, Some 59).
Proof. reflexivity. Qed.

Example getters_ex2 :
  let d : Date := Some (-1) in (* 1969-12-31T23:59:59.999Z, a Wednesday *)
  (getUTCFullYear d, getUTCMonth d, getUTCDate d, getUTCDay d,
   getUTCHours d, getUTCMinutes d)
  = (Some 1969, Some 11, Some 31, Some 3, Some 23, Some 59).
Proof. reflexivity. Qed.

Example normalize_ex1 :
  _normalize (Some 1709567999999) (fun _ => 0) "0 9 * mar-june mon"
  = Ok (Str "0 9 * 3-6 1").
Proof. reflexivity. Qed.

(** ** Results of [bind] *)

Lemma bind_Ok {A B : Type} (r : result A) (k : A -> result B) (b : B) :
  bind r k = Ok b -> exists a, r = Ok a /\ k a = Ok b.
Proof. destruct r as [a|e]; simpl; intros H; [eauto | discriminate]. Qed.

Ltac inv_bind H :=
  let a := fresh "v" in
  let Ha := fresh "Hv" in
  apply bind_Ok in H; destruct H as (a & Ha & H).

(** ** Strings and digits *)

Lemma split_not_nil (sep : ascii) (s : string) : split sep s <> [].
Proof.
  destruct s as [|c s]; simpl; [discriminate|].
  destruct (Ascii.eqb c sep); [discriminate|].
  destruct (split sep s); discriminate.
Qed.

Lemma digit_value_nonneg (c : ascii) : is_digit c = true -> 0 <= digit_value c <= 9.
Proof.
  unfold is_digit, digit_value. cbv zeta. intros H.
  apply andb_true_iff in H. destruct H as [H1 H2].
  apply Nat.leb_le in H1. apply Nat.leb_le in H2.
  generalize dependent (nat_of_ascii c). intros n H1 H2. lia.
Qed.

Lemma parse_digits_ge (s : string) : forall acc, 0 <= acc -> acc <= parse_digits acc s.
Proof.
  induction s as [|c s IH]; cbn [parse_digits]; intros acc Hacc; [lia|].
  destruct (is_digit c) eqn:Hc; [|lia].
  pose proof (digit_value_nonneg c Hc).
  specialize (IH (10 * acc + digit_value c)). lia.
Qed.

Lemma parseInt_nonneg (s : string) : 0 <= parseInt s.
Proof. unfold parseInt. apply parse_digits_ge. lia. Qed.

(** The captures of a match are non-empty runs of digits, the strings on
    which [parseInt] is the decimal value. *)
Lemma partRegex_exec_digits (s : string) (m : part_match) :
  partRegex_exec s = Some m ->
  let number_or_absent (o : option string) :=
    match o with
    | Some x => is_number x = true
    | None => True
    end in
  match m with
  | MWild step => number_or_absent step
  | MNum mn mx step =>
      is_number mn = true /\ number_or_absent mx /\ number_or_absent step
  end.
Proof.
  unfold partRegex_exec. destruct (cut "/" s) as [body step].
  assert (Hstep : negb match step with
                       | Some st => is_number st
                       | None => true
                       end = false ->
                  match step with
                  | Some x => is_number x = true
                  | None => True
                  end).
  { destruct step as [st|]; [|trivial].
    intros H. apply negb_false_iff in H. assumption. }
  destruct (negb _) eqn:Hok; [discriminate|]. specialize (Hstep eq_refl).
  destruct (String.eqb body "*").
  - intros [= <-]. exact Hstep.
  - destruct (cut "-" body) as [lo [hi|]].
    + destruct (is_number lo) eqn:Hlo, (is_number hi) eqn:Hhi;
        try discriminate.
      intros [= <-]. cbv zeta. auto.
    + destruct step; [discriminate|].
      destruct (is_number lo) eqn:Hlo; [|discriminate].
      intros [= <-]. cbv zeta. auto.
Qed.

(** ** [_range] *)

Lemma progression_length lo step n : List.length (progression lo step n) = n.
Proof. unfold progression. rewrite length_map, length_seq. reflexivity. Qed.

Lemma progression_In lo step n v :
  In v (progression lo step n) <->
  exists k, (k < n)%nat /\ v = lo + Z.of_nat k * step.
Proof.
  unfold progression. rewrite in_map_iff. split.
  - intros (k & Hk & Hin). apply in_seq in Hin. exists k. split; [lia | auto].
  - intros (k & Hk & ->). exists k. split; [reflexivity | apply in_seq; lia].
Qed.

Lemma StronglySorted_map_seq (f : nat -> Z) :
  (forall i j, (i < j)%nat -> f i < f j) ->
  forall n s, StronglySorted Z.lt (map f (seq s n)).
Proof.
  intros Hf. induction n as [|n IH]; intros s; simpl; constructor.
  - apply IH.
  - apply Forall_forall. intros v Hv. apply in_map_iff in Hv.
    destruct Hv as (j & <- & Hj). apply in_seq in Hj. apply Hf. lia.
Qed.

Lemma progression_ascending lo step n :
  1 <= step -> strictly_ascending (progression lo step n).
Proof.
  intros Hst. apply StronglySorted_map_seq. intros i j Hij. nia.
Qed.

Lemma range_count_pos (a b step : Z) : 1 <= step -> 1 <= range_count a b step.
Proof.
  intros Hst. unfold range_count.
  assert (0 <= (Z.max a b - Z.min a b) / step) by (apply Z.div_pos; lia).
  lia.
Qed.

(** With a step of at least 1, [_range] returns the progression from the
    smaller to the larger of its two bounds, or throws a [RangeError] when
    that is longer than an array can be. *)
Lemma _range_cases (a b step : Z) :
  1 <= step ->
  _range a b step =
  if range_count a b step <=? MAX_ARRAY_LENGTH
  then Ok (progression (Z.min a b) step (Z.to_nat (range_count a b step)))
  else Throw RangeError.
Proof.
  intros Hst. pose proof (range_count_pos a b step Hst) as Hpos.
  unfold _range, range_count in *.
  assert (Hmm : (if b <? a then (b, a) else (a, b)) = (Z.min a b, Z.max a b)).
  { destruct (Z.ltb_spec b a); f_equal; lia. }
  rewrite Hmm.
  destruct (Z.eqb_spec step 0) as [->|_]; [lia|].
  destruct (Z.ltb_spec ((Z.max a b - Z.min a b) / step + 1) 0); [lia|].
  cbn [orb].
  destruct (Z.ltb_spec MAX_ARRAY_LENGTH ((Z.max a b - Z.min a b) / step + 1)),
           (Z.leb_spec ((Z.max a b - Z.min a b) / step + 1) MAX_ARRAY_LENGTH);
    try lia; reflexivity.
Qed.

Lemma _range_spec (a b step : Z) :
  1 <= step ->
  range_count a b step <= MAX_ARRAY_LENGTH ->
  _range a b step =
  Ok (progression (Z.min a b) step
        (Z.to_nat ((Z.max a b - Z.min a b) / step + 1))).
Proof.
  intros Hst Hfit. rewrite _range_cases by assumption.
  destruct (Z.leb_spec (range_count a b step) MAX_ARRAY_LENGTH); [|lia].
  reflexivity.
Qed.

Lemma _range_too_long (a b step : Z) :
  1 <= step ->
  MAX_ARRAY_LENGTH < range_count a b step ->
  _range a b step = Throw RangeError.
Proof.
  intros Hst Hlong. rewrite _range_cases by assumption.
  destruct (Z.leb_spec (range_count a b step) MAX_ARRAY_LENGTH); [lia|].
  reflexivity.
Qed.

(** What [_range] returns with a step of at least 1 is the progression. *)
Lemma _range_Ok (a b step : Z) (l : list Z) :
  1 <= step ->
  _range a b step = Ok l ->
  range_count a b step <= MAX_ARRAY_LENGTH
  /\ l = progression (Z.min a b) step
           (Z.to_nat ((Z.max a b - Z.min a b) / step + 1)).
Proof.
  intros Hst H. rewrite _range_cases in H by assumption.
  destruct (Z.leb_spec (range_count a b step) MAX_ARRAY_LENGTH);
    [|discriminate].
  injection H as <-. split; [assumption | reflexivity].
Qed.

(** [_range] takes its bounds in either order. *)
Lemma _range_comm (a b step : Z) : _range a b step = _range b a step.
Proof.
  unfold _range.
  destruct (Z.ltb_spec b a), (Z.ltb_spec a b); try lia; try reflexivity.
  replace b with a by lia. reflexivity.
Qed.

Lemma progression_bounds lo hi step v :
  1 <= step -> lo <= hi ->
  In v (progression lo step (Z.to_nat ((hi - lo) / step + 1))) ->
  lo <= v <= hi.
Proof.
  intros Hst Hle Hin. apply progression_In in Hin.
  destruct Hin as (k & Hk & ->).
  assert (Hq : 0 <= (hi - lo) / step) by (apply Z.div_pos; lia).
  assert (Hk' : Z.of_nat k <= (hi - lo) / step) by lia.
  assert (Hm : step * ((hi - lo) / step) <= hi - lo)
    by (apply Z.mul_div_le; lia).
  nia.
Qed.

(** ** The step handed to [_range] *)

Lemma step_coerced (step : option string) :
  exists st, or_else (parseInt_opt step) (Ok 1) = Ok st /\ 1 <= st.
Proof.
  destruct step as [s|]; simpl; [|exists 1; split; [reflexivity | lia]].
  destruct (Z.eqb_spec (parseInt s) 0) as [E|E].
  - exists 1. split; [reflexivity | lia].
  - exists (parseInt s). split; [reflexivity|].
    pose proof (parseInt_nonneg s). lia.
Qed.

(** ** [_parsePart] on one match *)

Lemma parse_match_range_args (m : part_match) (id : nat) :
  parse_match m id =
  match range_args m id with
  | Throw e => Throw e
  | Ok None => match m with
               | MNum min _ _ => Ok [parseInt min]
               | MWild _ => Ok []
               end
  | Ok (Some (a, b, st)) => _range a b st
  end.
Proof.
  destruct m as [step | mn mx step]; unfold parse_match, range_args.
  - destruct (allowedNum id) as [[lo hi]|]; [|reflexivity].
    destruct (or_else (Some hi) (allowedNum_max id)) as [mx|e];
      cbn [bind]; [|reflexivity].
    destruct (or_else (parseInt_opt step) (Ok 1)); reflexivity.
  - destruct mx as [mx|], step as [step|]; try reflexivity;
      destruct (or_else _ (allowedNum_max id)); cbn [bind]; try reflexivity;
      destruct (or_else _ (Ok 1)); reflexivity.
Qed.

Lemma range_args_step (m : part_match) (id : nat) (a b st : Z) :
  range_args m id = Ok (Some (a, b, st)) ->
  or_else (parseInt_opt (step_of m)) (Ok 1) = Ok st /\ 1 <= st.
Proof.
  intros H.
  destruct (step_coerced (step_of m)) as (st' & Hst' & Hge).
  assert (st = st'); [|subst; auto].
  destruct m as [step | mn mx step]; unfold range_args in H;
    cbn [step_of] in Hst'.
  - destruct (allowedNum id) as [[lo hi]|]; [|discriminate].
    inv_bind H. rewrite Hst' in H. cbn [bind] in H. congruence.
  - destruct mx as [mx|], step as [step|]; cbn iota in H; try discriminate;
      inv_bind H; rewrite Hst' in H; cbn [bind] in H; congruence.
Qed.

(** What [parse_match] returns is never empty and strictly ascending. *)
Lemma parse_match_shape (m : part_match) (id : nat) (l : list Z) :
  parse_match m id = Ok l -> l <> [] /\ strictly_ascending l.
Proof.
  rewrite parse_match_range_args.
  destruct (range_args m id) as [[[[a b] st]|]|e] eqn:Hargs; [| |discriminate].
  - apply range_args_step in Hargs. destruct Hargs as [_ Hst].
    intros H. apply _range_Ok in H; [|assumption]. destruct H as [_ ->]. split.
    + intros Hnil. apply (f_equal (@List.length Z)) in Hnil.
      rewrite progression_length in Hnil. simpl in Hnil.
      assert (0 <= (Z.max a b - Z.min a b) / st) by (apply Z.div_pos; lia).
      lia.
    + apply progression_ascending; assumption.
  - destruct m as [step | mn mx step].
    + exfalso. unfold range_args in Hargs.
      destruct (allowedNum id) as [[lo hi]|]; [|discriminate].
      inv_bind Hargs. inv_bind Hargs. discriminate.
    + intros [= <-]. split; [discriminate|].
      constructor; constructor.
Qed.

(** [or_else] picks its left operand unless that is [NaN] or 0. *)
Lemma or_else_cases (x : num) (d : result Z) (v : Z) :
  or_else x d = Ok v -> (x = Some v /\ v <> 0) \/ d = Ok v.
Proof.
  unfold or_else. destruct x as [w|]; [|auto].
  destruct (Z.eqb_spec w 0); [auto|]. intros [= <-]. auto.
Qed.

(** When the numbers written in the match are within the domain of the
    field, so are the numbers it is parsed to. *)
Lemma parse_match_within (m : part_match) (id : nat) (lo hi : Z) (l : list Z) :
  allowedNum id = Some (lo, hi) ->
  match_within lo hi m = true ->
  parse_match m id = Ok l ->
  Forall (fun v => lo <= v <= hi) l.
Proof.
  intros Hdom Hw. rewrite parse_match_range_args.
  assert (Hlohi : lo <= hi).
  { destruct id as [|[|[|[|[|id]]]]]; simpl in Hdom; inversion Hdom; lia. }
  destruct (range_args m id) as [[[[a b] st]|]|e] eqn:Hargs; [| |discriminate].
  - pose proof (range_args_step _ _ _ _ _ Hargs) as [_ Hst].
    intros H. apply _range_Ok in H; [|assumption]. destruct H as [_ ->].
    assert (Hab : lo <= a <= hi /\ lo <= b <= hi).
    { destruct m as [step | mn mx step]; unfold range_args in Hargs.
      - rewrite Hdom in Hargs. inv_bind Hargs. inv_bind Hargs.
        injection Hargs as <- <- <-.
        apply or_else_cases in Hv. unfold allowedNum_max in Hv.
        rewrite Hdom in Hv. destruct Hv as [[[= <-] _]|[= <-]]; lia.
      - unfold match_within, within in Hw.
        apply andb_true_iff in Hw. destruct Hw as [Hmn Hmx].
        apply andb_true_iff in Hmn. destruct Hmn as [H1 H2].
        apply Z.leb_le in H1. apply Z.leb_le in H2.
        assert (exists b', or_else (parseInt_opt mx) (allowedNum_max id) = Ok b'
                           /\ b' = b /\ a = parseInt mn) as (b' & Hb' & -> & ->).
        { destruct mx as [mx|], step as [step|]; cbn iota in Hargs;
            try discriminate;
            inv_bind Hargs; inv_bind Hargs; injection Hargs as <- <- <-; eauto. }
        split; [lia|].
        apply or_else_cases in Hb'. unfold allowedNum_max in Hb'.
        rewrite Hdom in Hb'. destruct Hb' as [[Hx _]|[= <-]]; [|lia].
        destruct mx as [mx|]; [|discriminate]. cbn [parseInt_opt] in Hx.
        injection Hx as <-.
        apply andb_true_iff in Hmx. destruct Hmx as [H3 H4].
        apply Z.leb_le in H3. apply Z.leb_le in H4. lia. }
    apply Forall_forall. intros v Hv.
    apply progression_bounds in Hv; lia.
  - destruct m as [step | mn mx step].
    + exfalso. unfold range_args in Hargs. rewrite Hdom in Hargs.
      inv_bind Hargs. inv_bind Hargs. discriminate.
    + intros [= <-]. constructor; [|constructor].
      unfold match_within, within in Hw.
      apply andb_true_iff in Hw. destruct Hw as [Hmn _].
      apply andb_true_iff in Hmn. destruct Hmn as [H1 H2].
      apply Z.leb_le in H1. apply Z.leb_le in H2. lia.
Qed.

(** ** Deduplication and sorting *)

Lemma existsb_eqb_In (x : Z) (l : list Z) :
  existsb (Z.eqb x) l = true <-> In x l.
Proof.
  rewrite existsb_exists. split.
  - intros (y & Hy & E). apply Z.eqb_eq in E. subst. assumption.
  - intros H. exists x. split; [assumption | apply Z.eqb_refl].
Qed.

Lemma set_values_In (res seen : list Z) (x : Z) :
  In x (set_values seen res) <-> In x res /\ ~ In x seen.
Proof.
  revert seen. induction res as [|y ys IH]; intros seen; simpl; [tauto|].
  destruct (existsb (Z.eqb y) seen) eqn:E.
  - apply existsb_eqb_In in E. rewrite IH. split.
    + tauto.
    + intros [[->|H] Hn]; [contradiction | auto].
  - assert (Hy : ~ In y seen).
    { intros H. apply existsb_eqb_In in H. congruence. }
    simpl. rewrite IH. simpl. split.
    + intros [->|[H Hn]]; [auto | tauto].
    + intros [[->|H] Hn]; [auto|].
      destruct (Z.eq_dec y x); [auto | right; tauto].
Qed.

Lemma set_values_NoDup (res seen : list Z) : NoDup (set_values seen res).
Proof.
  revert seen. induction res as [|y ys IH]; intros seen; simpl; [constructor|].
  destruct (existsb (Z.eqb y) seen); [apply IH|].
  constructor; [|apply IH].
  rewrite set_values_In. simpl. tauto.
Qed.

Lemma insert_num_In (x y : Z) (l : list Z) :
  In y (insert_num x l) <-> y = x \/ In y l.
Proof.
  induction l as [|z zs IH]; simpl; [intuition congruence|].
  destruct (x - z <=? 0); simpl; [intuition congruence|].
  rewrite IH. intuition congruence.
Qed.

Lemma insert_num_ascending (x : Z) (l : list Z) :
  strictly_ascending l -> ~ In x l -> strictly_ascending (insert_num x l).
Proof.
  unfold strictly_ascending.
  induction l as [|z zs IH]; simpl; intros Hs Hn.
  - constructor; constructor.
  - inversion Hs as [|? ? Hzs Hall]; subst.
    destruct (Z.leb_spec (x - z) 0) as [Hle|Hgt].
    + constructor; [assumption|].
      assert (Hxz : x < z) by lia.
      constructor; [assumption|].
      eapply Forall_impl; [|exact Hall]. intros a Ha. simpl in Ha. lia.
    + constructor; [apply IH; tauto|].
      apply Forall_forall. intros a Ha. apply insert_num_In in Ha.
      destruct Ha as [->|Ha]; [lia|].
      rewrite Forall_forall in Hall. auto.
Qed.

Lemma sort_num_In (l : list Z) (x : Z) : In x (sort_num l) <-> In x l.
Proof.
  unfold sort_num. induction l as [|y ys IH]; simpl; [tauto|].
  rewrite insert_num_In, IH. intuition congruence.
Qed.

Lemma sort_num_ascending (l : list Z) :
  NoDup l -> strictly_ascending (sort_num l).
Proof.
  induction 1 as [|x xs Hx Hnd IH]; simpl.
  - constructor.
  - apply insert_num_ascending; [exact IH|].
    fold (sort_num xs). rewrite sort_num_In. assumption.
Qed.

Lemma strictly_ascending_NoDup (l : list Z) : strictly_ascending l -> NoDup l.
Proof.
  induction 1 as [|x xs Hs IH Hall]; constructor; [|assumption].
  intros Hin. rewrite Forall_forall in Hall. specialize (Hall x Hin). lia.
Qed.

(** ** [_parsePart] *)

Lemma split_no_sep (sep : ascii) (s : string) :
  includes_char sep s = false -> split sep s = [s].
Proof.
  induction s as [|c s IH]; simpl; [reflexivity|].
  intros H. apply orb_false_iff in H. destruct H as [Hc Hs].
  rewrite Hc, (IH Hs). reflexivity.
Qed.

(** The pieces of a split hold no separator: the recursive calls of line
    102 take the second branch of [_parsePart]. *)
Lemma split_pieces_no_sep (sep : ascii) (s : string) :
  Forall (fun p => includes_char sep p = false) (split sep s).
Proof.
  induction s as [|c s IH]; simpl.
  - constructor; [reflexivity | constructor].
  - destruct (Ascii.eqb c sep) eqn:Hc.
    + constructor; [reflexivity | assumption].
    + destruct (split sep s) as [|p ps].
      * constructor; [simpl; rewrite Hc; reflexivity | constructor].
      * inversion IH as [|? ? Hp Hps]; subst.
        constructor; [simpl; rewrite Hc, Hp; reflexivity | assumption].
Qed.

Lemma _parsePart_on_piece (sep_free : string) (id : nat) :
  includes_char "," sep_free = false ->
  _parsePart sep_free id = _parsePart_single sep_free id.
Proof. intros H. unfold _parsePart. rewrite H. reflexivity. Qed.

(** The loop of line 102 appends, for each piece in turn, what the piece is
    parsed to. *)
Lemma parse_pieces_spec (id : nat) :
  forall pieces res l,
    parse_pieces pieces id res = Ok l ->
    exists rs,
      Forall2 (fun p r => _parsePart_single p id = Ok r) pieces rs
      /\ l = (res ++ List.concat rs)%list.
Proof.
  induction pieces as [|p ps IH]; simpl; intros res l H.
  - injection H as <-. exists []. split; [constructor|].
    simpl. rewrite app_nil_r. reflexivity.
  - inv_bind H. apply IH in H. destruct H as (rs & Hrs & ->).
    exists (v :: rs). split; [constructor; assumption|].
    simpl. rewrite app_assoc. reflexivity.
Qed.

Lemma _parsePart_single_shape (part : string) (id : nat) (l : list Z) :
  _parsePart_single part id = Ok l -> l <> [] /\ strictly_ascending l.
Proof.
  unfold _parsePart_single.
  destruct (partRegex_exec part); [apply parse_match_shape | discriminate].
Qed.

(** Every field that parses gives a non-empty, strictly ascending array. *)
Lemma _parsePart_shape (field : string) (id : nat) (l : list Z) :
  _parsePart field id = Ok l -> l <> [] /\ strictly_ascending l.
Proof.
  unfold _parsePart. destruct (includes_char "," field);
    [|apply _parsePart_single_shape].
  intros H. inv_bind H. injection H as <-.
  apply parse_pieces_spec in Hv.
  destruct Hv as (rs & Hrs & ->). simpl. split.
  - destruct (split "," field) as [|p ps] eqn:Hsp;
      [exfalso; eapply split_not_nil; eassumption|].
    inversion Hrs as [|? r ? rs' Hr Hrest]; subst.
    apply _parsePart_single_shape in Hr. destruct Hr as [Hne _].
    destruct r as [|x r]; [congruence|].
    intros Hnil.
    assert (Hin : In x (sort_num (set_values [] (List.concat ((x :: r) :: rs'))))).
    { rewrite sort_num_In, set_values_In. simpl. tauto. }
    rewrite Hnil in Hin. destruct Hin.
  - apply sort_num_ascending, set_values_NoDup.
Qed.

Lemma _parsePart_single_within (part : string) (id : nat) (lo hi : Z) (l : list Z) :
  allowedNum id = Some (lo, hi) ->
  match partRegex_exec part with
  | Some m => match_within lo hi m
  | None => true
  end = true ->
  _parsePart_single part id = Ok l ->
  Forall (fun v => lo <= v <= hi) l.
Proof.
  unfold _parsePart_single. intros Hdom Hw.
  destruct (partRegex_exec part) as [m|]; [|discriminate].
  apply parse_match_within; assumption.
Qed.

(** When the numbers written in a field are within its domain, so is the
    array it is parsed to. *)
Lemma _parsePart_within (field : string) (id : nat) (lo hi : Z) (l : list Z) :
  allowedNum id = Some (lo, hi) ->
  written_within lo hi field = true ->
  _parsePart field id = Ok l ->
  Forall (fun v => lo <= v <= hi) l.
Proof.
  unfold _parsePart, written_within. intros Hdom Hw.
  destruct (includes_char "," field) eqn:Hcomma.
  - intros H. inv_bind H. injection H as <-.
    apply parse_pieces_spec in Hv.
    destruct Hv as (rs & Hrs & ->). simpl.
    apply Forall_forall. intros x Hx.
    rewrite sort_num_In, set_values_In in Hx. destruct Hx as [Hx _].
    apply in_concat in Hx. destruct Hx as (r & Hr & Hx).
    rewrite forallb_forall in Hw.
    assert (Hall : Forall (fun v => lo <= v <= hi) r).
    { clear Hx. induction Hrs as [|p r' ps rs' Hp Hrest IH];
        [destruct Hr|].
      destruct Hr as [->|Hr].
      - eapply _parsePart_single_within; eauto. apply Hw. left. reflexivity.
      - apply IH; [|assumption]. intros q Hq. apply Hw. right. assumption. }
    rewrite Forall_forall in Hall. auto.
  - rewrite (split_no_sep _ _ Hcomma) in Hw. simpl in Hw.
    rewrite andb_true_r in Hw.
    apply _parsePart_single_within; assumption.
Qed.

(** ** [_parseString] and the constructor *)

Lemma map_indexed_spec {A B : Type} (f : A -> nat -> result B) :
  forall (l : list A) (i : nat) (r : list B),
    map_indexed f i l = Ok r ->
    List.length r = List.length l
    /\ forall k x, nth_error l k = Some x ->
                   exists y, nth_error r k = Some y /\ f x (i + k)%nat = Ok y.
Proof.
  induction l as [|a l IH]; simpl; intros i r H.
  - injection H as <-. split; [reflexivity|].
    intros [|k] x Hk; discriminate.
  - inv_bind H. inv_bind H. injection H as <-.
    apply IH in Hv0. destruct Hv0 as [Hlen Hnth]. split; [simpl; congruence|].
    intros [|k] x Hk; simpl in Hk.
    + injection Hk as <-. exists v. rewrite Nat.add_0_r. auto.
    + apply Hnth in Hk. destruct Hk as (y & Hy & Hf).
      exists y. split; [assumption|].
      rewrite <- Hf. f_equal. lia.
Qed.





Lemma _parseString_length (text : string) (parts : list (list Z)) :
  _parseString text = Ok parts -> List.length parts = 5%nat.
Proof.
  unfold _parseString.
  destruct (Nat.eqb_spec (List.length (split " " text)) 5) as [E|E]; simpl;
    [|discriminate].
  intros H. apply map_indexed_spec in H. destruct H as [H _]. congruence.
Qed.

(** A constructed [Cron] holds, position by position, what [_parsePart]
    makes of the fields of its normalized text. *)
Lemma new_Cron_fields (now : Date) (random : nat -> Z) (expr : string) (c : Cron) :
  new_Cron now random expr = Ok c ->
  List.length (split " " (normalized c)) = 5%nat
  /\ forall i field,
       nth_error (split " " (normalized c)) i = Some field ->
       exists l, nth_error (fields c) i = Some l /\ _parsePart field i = Ok l.
Proof.
  unfold new_Cron. intros H. inv_bind H.
  destruct v as [text|key]; [|discriminate]. inv_bind H.
  unfold _parseString in Hv0.
  destruct (Nat.eqb_spec (List.length (split " " text)) 5) as [E|E];
    simpl in Hv0; [|discriminate].
  apply map_indexed_spec in Hv0. destruct Hv0 as [Hlen Hnth].
  destruct v as [|m [|h [|d [|mo [|dw [|x v]]]]]]; try discriminate.
  injection H as <-. simpl. split; [assumption|]. exact Hnth.
Qed.

(** ** The calendar *)

Ltac Zify.zify_post_hook ::= Z.to_euclidean_division_equations.

(** [YearFromDay d] is the year whose days include [d]. *)
Lemma YearFromDay_spec (d : Z) :
  DayFromYear (YearFromDay d) <= d < DayFromYear (YearFromDay d + 1).
Proof.
  unfold YearFromDay. cbv zeta.
  destruct (Z.ltb_spec d (DayFromYear (1970 + 400 * d / 146097))).
  - unfold DayFromYear in *. lia.
  - destruct (Z.leb_spec (DayFromYear (1970 + 400 * d / 146097 + 1)) d).
    + unfold DayFromYear in *. lia.
    + lia.
Qed.

Lemma DayFromYear_succ (y : Z) : DayFromYear (y + 1) = DayFromYear y + DaysInYear y.
Proof.
  unfold DaysInYear, leap_year, DayFromYear.
  destruct (Z.eqb_spec (y mod 4) 0), (Z.eqb_spec (y mod 100) 0),
    (Z.eqb_spec (y mod 400) 0); cbn [andb orb negb]; lia.
Qed.

Lemma DayWithinYear_range (d : Z) :
  0 <= DayWithinYear d < DaysInYear (YearFromDay d).
Proof.
  unfold DayWithinYear. pose proof (YearFromDay_spec d) as H.
  rewrite DayFromYear_succ in H. lia.
Qed.

Lemma InLeapYear_DaysInYear (d : Z) : DaysInYear (YearFromDay d) = 365 + InLeapYear d.
Proof. unfold DaysInYear, InLeapYear. destruct (leap_year _); reflexivity. Qed.

Lemma InLeapYear_01 (d : Z) : InLeapYear d = 0 \/ InLeapYear d = 1.
Proof. unfold InLeapYear. destruct (leap_year _); auto. Qed.

Lemma MonthFromDay_range (d : Z) : 0 <= MonthFromDay d <= 11.
Proof.
  unfold MonthFromDay. cbv zeta.
  repeat match goal with
         | |- context [if ?b then _ else _] => destruct b
         end; lia.
Qed.

Ltac split_months :=
  repeat match goal with
         | |- context [?a <? ?b] => destruct (Z.ltb_spec a b)
         | |- context [?a =? ?b] => destruct (Z.eqb_spec a b)
         end.

Lemma DateFromDay_range (d : Z) : 1 <= DateFromDay d <= 31.
Proof.
  pose proof (DayWithinYear_range d) as Hw.
  rewrite InLeapYear_DaysInYear in Hw.
  pose proof (InLeapYear_01 d) as Hl.
  unfold DateFromDay, MonthFromDay, month_start. cbv zeta.
  split_months; lia.
Qed.

(** February has no 30th. *)
Lemma February_short (d : Z) : MonthFromDay d = 1 -> DateFromDay d <= 29.
Proof.
  pose proof (InLeapYear_01 d) as Hl.
  unfold DateFromDay, MonthFromDay, month_start. cbv zeta.
  split_months; lia.
Qed.

(** Putting the year, month and day of the month of a day together again
    gives the day. *)
Lemma MakeDay_of_day (d : Z) :
  MakeDay (YearFromDay d) (MonthFromDay d) (DateFromDay d) = d.
Proof.
  pose proof (MonthFromDay_range d) as Hm.
  unfold MakeDay. cbv zeta.
  replace (MonthFromDay d / 12) with 0 by lia.
  replace (MonthFromDay d mod 12) with (MonthFromDay d) by lia.
  rewrite Z.add_0_r. fold (InLeapYear d).
  unfold DateFromDay, DayWithinYear. lia.
Qed.

Lemma YearFromDay_unique (d y : Z) :
  DayFromYear y <= d < DayFromYear (y + 1) -> YearFromDay d = y.
Proof.
  intros H. pose proof (YearFromDay_spec d) as Hs.
  unfold DayFromYear in *. lia.
Qed.

(** [MakeDay] finds the first day of a month: the day it returns for the
    date 1 falls in that year and month. *)
Lemma MakeDay_first_of_month (y m : Z) :
  0 <= m <= 11 ->
  YearFromDay (MakeDay y m 1) = y
  /\ MonthFromDay (MakeDay y m 1) = m
  /\ DateFromDay (MakeDay y m 1) = 1.
Proof.
  intros Hm.
  assert (Hd : MakeDay y m 1
               = DayFromYear y + month_start m (if leap_year y then 1 else 0)).
  { unfold MakeDay. cbv zeta.
    replace (m / 12) with 0 by lia. replace (m mod 12) with m by lia.
    rewrite Z.add_0_r. lia. }
  assert (Hcases : m = 0 \/ m = 1 \/ m = 2 \/ m = 3 \/ m = 4 \/ m = 5 \/ m = 6
                   \/ m = 7 \/ m = 8 \/ m = 9 \/ m = 10 \/ m = 11) by lia.
  assert (Hy : YearFromDay (MakeDay y m 1) = y).
  { apply YearFromDay_unique. rewrite Hd, DayFromYear_succ.
    unfold DaysInYear.
    repeat (destruct Hcases as [->|Hcases]); try subst m;
      cbv [month_start Z.eqb Pos.eqb]; destruct (leap_year y); lia. }
  assert (Hmo : MonthFromDay (MakeDay y m 1) = m).
  { unfold MonthFromDay, DayWithinYear, InLeapYear. rewrite Hy, Hd.
    cbv zeta.
    repeat (destruct Hcases as [->|Hcases]); try subst m;
      cbv [month_start Z.eqb Pos.eqb]; destruct (leap_year y);
      split_months; lia. }
  split; [assumption|]. split; [assumption|].
  unfold DateFromDay, DayWithinYear, InLeapYear. rewrite Hmo, Hy, Hd. lia.
Qed.

Lemma Day_plus_days (t k : Z) : Day (t + k * msPerDay) = Day t + k.
Proof. unfold Day, msPerDay. lia. Qed.

Lemma time_on_components (d h mi : Z) :
  0 <= h <= 23 -> 0 <= mi <= 59 ->
  Day (time_on d h mi) = d
  /\ HourFromTime (time_on d h mi) = h
  /\ MinFromTime (time_on d h mi) = mi
  /\ time_on d h mi mod msPerMinute = 0.
Proof.
  intros Hh Hm.
  unfold Day, HourFromTime, MinFromTime, time_on, msPerDay, msPerHour, msPerMinute.
  repeat split; lia.
Qed.

(** A time value at minute resolution is the time of its hour and minute on
    its day. *)
Lemma time_on_of_components (r : Z) :
  r mod msPerMinute = 0 ->
  r = time_on (Day r) (HourFromTime r) (MinFromTime r).
Proof.
  unfold Day, HourFromTime, MinFromTime, time_on, msPerDay, msPerHour, msPerMinute.
  lia.
Qed.

Lemma TimeClip_in_range (d h mi : Z) :
  day_in_range d -> 0 <= h <= 23 -> 0 <= mi <= 59 ->
  TimeClip (time_on d h mi) = Some (time_on d h mi).
Proof.
  unfold day_in_range, TimeClip, time_on, maxTime, msPerDay, msPerHour, msPerMinute.
  intros Hd Hh Hm.
  destruct (Z.leb_spec (Z.abs (d * 86400000 + h * 3600000 + mi * 60000))
              8640000000000000); [reflexivity | lia].
Qed.

(** Outside the years that [Date.UTC] reads as two-digit years, the date
    built at line 49 is the time of [hour]:[minute] on the day. *)
Lemma at_day_time_on (d h mi : Z) :
  ~ two_digit_year d -> day_in_range d -> 0 <= h <= 23 -> 0 <= mi <= 59 ->
  at_day d (Some h) (Some mi) = Some (time_on d h mi).
Proof.
  intros Hy Hd Hh Hm. unfold at_day, Date_UTC, two_digit_year in *.
  destruct (Z.leb_spec 0 (YearFromDay d)), (Z.leb_spec (YearFromDay d) 99);
    cbn [andb]; try lia;
    rewrite MakeDay_of_day; unfold MakeDate, MakeTime;
    replace (d * msPerDay + (h * msPerHour + mi * msPerMinute + 0 * 1000 + 0))
      with (time_on d h mi) by (unfold time_on; lia);
    rewrite TimeClip_in_range by assumption; cbn [new_Date];
    apply TimeClip_in_range; assumption.
Qed.

(** ** Arrays: [includes], [findIndex], order *)

Lemma includes_In (l : list Z) (v : Z) : includes l (Some v) = true <-> In v l.
Proof. apply existsb_eqb_In. Qed.

Lemma findIndex_None {A : Type} (p : A -> bool) (l : list A) :
  findIndex p l = None -> forall x, In x l -> p x = false.
Proof.
  induction l as [|a l IH]; simpl; intros H x Hx; [destruct Hx|].
  destruct (p a) eqn:Ha; [discriminate|].
  destruct (findIndex p l); [discriminate|].
  destruct Hx as [->|Hx]; auto.
Qed.

Lemma findIndex_Some {A : Type} (p : A -> bool) (l : list A) (i : nat) :
  findIndex p l = Some i ->
  exists x, nth_error l i = Some x /\ p x = true
            /\ forall j y, (j < i)%nat -> nth_error l j = Some y -> p y = false.
Proof.
  revert i. induction l as [|a l IH]; simpl; intros i H; [discriminate|].
  destruct (p a) eqn:Ha.
  - injection H as <-. exists a. repeat split; auto. intros j y Hj. lia.
  - destruct (findIndex p l) as [k|]; [|discriminate].
    injection H as <-. destruct (IH k eq_refl) as (x & Hx & Hp & Hbefore).
    exists x. repeat split; auto.
    intros [|j] y Hj Hy; simpl in Hy; [congruence|].
    apply (Hbefore j); [lia | assumption].
Qed.

Lemma ascending_nth (l : list Z) :
  strictly_ascending l ->
  forall i j x y, (i < j)%nat ->
                  nth_error l i = Some x -> nth_error l j = Some y -> x < y.
Proof.
  induction 1 as [|a l Hs IH Hall]; intros i j x y Hij Hi Hj.
  - destruct i; discriminate.
  - destruct j as [|j]; [lia|]. simpl in Hj. destruct i as [|i]; simpl in Hi.
    + injection Hi as <-. rewrite Forall_forall in Hall.
      apply Hall. eapply nth_error_In; eassumption.
    + apply (IH i j); [lia | assumption | assumption].
Qed.

Lemma ascending_head (l : list Z) :
  strictly_ascending l -> l <> [] ->
  exists x, hd_error l = Some x /\ smallest x l.
Proof.
  intros Hs Hne. destruct l as [|a l]; [congruence|].
  exists a. split; [reflexivity|]. split; [left; reflexivity|].
  inversion Hs as [|? ? _ Hall]; subst. constructor; [lia|].
  eapply Forall_impl; [|exact Hall]. intros b Hb. simpl in Hb. lia.
Qed.

(** ** One step of [next] *)

Lemma next_condition (c : Cron) (t : Z) :
  negb (includes (days c) (getUTCDate (Some t)))
  || negb (includes (months c) (num_add (getUTCMonth (Some t)) 1))
  || negb (includes (dows c) (getUTCDay (Some t)))
  = negb (qualifies c (Day t)).
Proof.
  unfold qualifies, getUTCDate, getUTCMonth, getUTCDay, num_add, option_map,
    DateFromTime, MonthFromTime, WeekDay.
  destruct (includes (days c) _), (includes (months c) _),
    (includes (dows c) _); reflexivity.
Qed.

(** On a day that does not qualify, [next] moves on by one day (line 27). *)
Lemma next_disqualified (fuel : nat) (c : Cron) (t : Z) (origin : bool) :
  qualifies c (Day t) = false ->
  next (S fuel) c (Some t) origin = next fuel c (TimeClip (t + day)) false.
Proof.
  intros Hq. cbn [next]. rewrite next_condition, Hq. reflexivity.
Qed.

(** On a qualifying day, a call that is not the origin returns the first
    hour and the first minute on that day (lines 29, 30 and 49). *)
Lemma next_qualified (fuel : nat) (c : Cron) (t : Z) :
  qualifies c (Day t) = true ->
  next (S fuel) c (Some t) false
  = Some (at_day (Day t) (hd_error (hours c)) (hd_error (minutes c))).
Proof.
  intros Hq. cbn [next]. rewrite next_condition, Hq. reflexivity.
Qed.

(** On a qualifying day, the origin call (lines 32-47). *)
Lemma next_origin (fuel : nat) (c : Cron) (t : Z) :
  qualifies c (Day t) = true ->
  next (S fuel) c (Some t) true
  = let now := TimeClip (t + 60000) in
    match findIndex (fun hr => geq_num hr (getUTCHours now)) (hours c) with
    | None => next fuel c (TimeClip (t + day)) false
    | Some hourIndex =>
        match findIndex (fun min => geq_num min (getUTCMinutes now))
                (minutes c) with
        | None =>
            match nth_error (hours c) (hourIndex + 1) with
            | None => next fuel c (TimeClip (t + day)) false
            | Some hour => Some (at_day (Day t) (Some hour) (hd_error (minutes c)))
            end
        | Some minuteIndex =>
            Some (at_day (Day t) (nth_error (hours c) hourIndex)
                    (nth_error (minutes c) minuteIndex))
        end
    end.
Proof.
  intros Hq. cbn [next]. rewrite next_condition, Hq. reflexivity.
Qed.

(** More fuel does not change what [next] returns. *)
Lemma next_fuel_monotone (c : Cron) :
  forall (fuel fuel' : nat) (zDay : Date) (origin : bool) (r : Date),
    next fuel c zDay origin = Some r ->
    (fuel <= fuel')%nat ->
    next fuel' c zDay origin = Some r.
Proof.
  induction fuel as [|fuel IH]; intros fuel' zDay origin r H Hle;
    [discriminate|].
  destruct fuel' as [|fuel']; [lia|].
  cbn [next] in *.
  destruct (negb (includes (days c) (getUTCDate zDay)) || _ || _);
    [apply IH; [assumption | lia]|].
  destruct origin; [|assumption].
  destruct (findIndex _ (hours c)); [|apply IH; [assumption | lia]].
  destruct (findIndex _ (minutes c)); [assumption|].
  destruct (nth_error (hours c) _); [assumption|].
  apply IH; [assumption | lia].
Qed.

Lemma TimeClip_valid (t : Z) : - maxTime <= t <= maxTime -> TimeClip t = Some t.
Proof.
  unfold TimeClip. intros H.
  destruct (Z.leb_spec (Z.abs t) maxTime); [reflexivity | lia].
Qed.

Lemma first_qualifying_shift (c : Cron) (d : Z) (n : nat) :
  first_qualifying c d (S n) -> first_qualifying c (d + 1) n.
Proof.
  intros [Hq Hbefore]. split.
  - rewrite <- Hq. f_equal. lia.
  - intros k Hk. rewrite <- (Hbefore (S k)) by lia. f_equal. lia.
Qed.

(** The search of a call that is not the origin: it stops on the first
    qualifying day from the day of [t] on, with the first hour and minute. *)
Lemma next_search (c : Cron) :
  forall (n : nat) (t : Z) (fuel : nat),
    first_qualifying c (Day t) n ->
    - maxTime <= t -> t + Z.of_nat n * msPerDay <= maxTime ->
    (n < fuel)%nat ->
    next fuel c (Some t) false
    = Some (at_day (Day t + Z.of_nat n)
              (hd_error (hours c)) (hd_error (minutes c))).
Proof.
  induction n as [|n IH]; intros t fuel Hfirst Hlo Hhi Hfuel;
    (destruct fuel as [|fuel]; [lia|]).
  - destruct Hfirst as [Hq _]. rewrite Z.add_0_r in Hq |- *.
    apply next_qualified. assumption.
  - assert (Hnot : qualifies c (Day t) = false).
    { destruct Hfirst as [_ Hb]. rewrite <- (Hb 0%nat) by lia.
      f_equal. lia. }
    rewrite next_disqualified by assumption.
    unfold msPerDay in Hhi. unfold day.
    rewrite TimeClip_valid by (unfold maxTime in *; lia).
    assert (Hd : Day (t + 86400000) = Day t + 1)
      by (unfold Day, msPerDay; lia).
    rewrite (IH (t + 86400000) fuel).
    + rewrite Hd. f_equal. unfold at_day.
      replace (Day t + 1 + Z.of_nat n) with (Day t + Z.of_nat (S n)) by lia.
      reflexivity.
    + rewrite Hd. apply first_qualifying_shift. assumption.
    + unfold maxTime in *. lia.
    + unfold msPerDay. lia.
    + lia.
Qed.

(** ** Soundness of the decision procedures *)

Lemma ascendingb_sound (l : list Z) : ascendingb l = true -> strictly_ascending l.
Proof.
  induction l as [|x xs IH]; simpl; intros H; [constructor|].
  apply andb_true_iff in H. destruct H as [Hall Hrest].
  constructor; [apply IH; assumption|].
  apply Forall_forall. intros y Hy. rewrite forallb_forall in Hall.
  apply Z.ltb_lt. auto.
Qed.

Lemma valid_fieldb_sound (id : nat) (l : list Z) :
  valid_fieldb id l = true -> valid_field id l.
Proof.
  unfold valid_fieldb, valid_field. destruct l as [|x xs]; [discriminate|].
  destruct (allowedNum id) as [[lo hi]|]; [|discriminate].
  intros H. apply andb_true_iff in H. destruct H as [Hasc Hall].
  split; [discriminate|]. split; [apply ascendingb_sound; assumption|].
  exists lo, hi. split; [reflexivity|].
  apply Forall_forall. intros v Hv. rewrite forallb_forall in Hall.
  specialize (Hall v Hv). unfold within in Hall.
  apply andb_true_iff in Hall. destruct Hall as [H1 H2].
  apply Z.leb_le in H1. apply Z.leb_le in H2. lia.
Qed.

Lemma valid_scheduleb_sound (c : Cron) :
  valid_scheduleb c = true -> valid_schedule c.
Proof.
  unfold valid_scheduleb, valid_schedule. intros H.
  repeat (apply andb_true_iff in H; destruct H as [H ?]).
  split; [|split; [|split; [|split]]]; apply valid_fieldb_sound; assumption.
Qed.

Lemma first_qualifyingb_sound (c : Cron) (d : Z) (n : nat) :
  first_qualifyingb c d n = true -> first_qualifying c d n.
Proof.
  unfold first_qualifyingb, first_qualifying. intros H.
  apply andb_true_iff in H. destruct H as [Hq Hall]. split; [assumption|].
  intros k Hk. rewrite forallb_forall in Hall.
  specialize (Hall k). rewrite in_seq in Hall.
  apply negb_true_iff. apply Hall. lia.
Qed.

(** ** Ranges whose upper end is not zero *)

(** A range written with its ends reversed parses to the same array, as long
    as neither end is 0. *)
Lemma reversed_range_nonzero (a b : string) (id : nat) :
  parseInt a <> 0 -> parseInt b <> 0 ->
  parse_match (MNum a (Some b) None) id = parse_match (MNum b (Some a) None) id.
Proof.
  intros Ha Hb. unfold parse_match, parseInt_opt, or_else.
  destruct (Z.eqb_spec (parseInt a) 0), (Z.eqb_spec (parseInt b) 0);
    try contradiction.
  cbn [bind]. apply _range_comm.
Qed.

(** A stepped range whose upper end is not 0 has
    floor((max - min) / step) + 1 evenly spaced elements, when an array
    can hold as many. *)
Lemma stepped_range_nonzero (mn mx st : string) (id : nat) :
  parseInt mn <= parseInt mx -> parseInt mx <> 0 -> 1 <= parseInt st ->
  (parseInt mx - parseInt mn) / parseInt st + 1 <= MAX_ARRAY_LENGTH ->
  parse_match (MNum mn (Some mx) (Some st)) id
  = Ok (progression (parseInt mn) (parseInt st)
          (Z.to_nat ((parseInt mx - parseInt mn) / parseInt st + 1))).
Proof.
  intros Hle Hmx Hst Hfit. unfold parse_match, parseInt_opt, or_else.
  destruct (Z.eqb_spec (parseInt mx) 0), (Z.eqb_spec (parseInt st) 0);
    try contradiction; try lia.
  cbn [bind]. rewrite _range_spec.
  - rewrite Z.min_l, Z.max_r by lia. reflexivity.
  - assumption.
  - unfold range_count. rewrite Z.min_l, Z.max_r by lia. assumption.
Qed.

(** ** Errors of the constructor *)




(** ** [next] returns *)


(** ** Candidates of the search *)

Lemma valid_schedule_bounds (c : Cron) :
  valid_schedule c ->
  (forall h, In h (hours c) -> 0 <= h <= 23)
  /\ (forall m, In m (minutes c) -> 0 <= m <= 59).
Proof.
  intros (Hmin & Hhour & _).
  destruct Hmin as (_ & _ & mlo & mhi & Hmdom & Hmall).
  destruct Hhour as (_ & _ & hlo & hhi & Hhdom & Hhall).
  simpl in Hmdom, Hhdom.
  injection Hmdom as <- <-. injection Hhdom as <- <-.
  rewrite Forall_forall in Hmall, Hhall. auto.
Qed.

Lemma matches_qualifies (c : Cron) (r : Z) :
  matches c r -> qualifies c (Day r) = true.
Proof.
  intros (_ & _ & _ & Hd & Hmo & Hw). unfold qualifies.
  rewrite !andb_true_iff, !includes_In. auto.
Qed.

(** On a qualifying day, an hour and a minute of the schedule make a
    matching time value. *)
Lemma matches_time_on (c : Cron) (d h mi : Z) :
  valid_schedule c -> qualifies c d = true ->
  In h (hours c) -> In mi (minutes c) ->
  matches c (time_on d h mi).
Proof.
  intros Hv Hq Hh Hm.
  destruct (valid_schedule_bounds c Hv) as [Hhb Hmb].
  destruct (time_on_components d h mi (Hhb h Hh) (Hmb mi Hm))
    as (Hd & Hh' & Hm' & Hmod).
  unfold qualifies in Hq. rewrite !andb_true_iff, !includes_In in Hq.
  unfold matches, DateFromTime, MonthFromTime, WeekDay.
  rewrite Hd, Hh', Hm'. tauto.
Qed.

(** The result of the search from the next day on is at most any matching
    time value on a later day. *)
Lemma later_day_candidate (c : Cron) (d : Z) (n : nat) (h0 m0 r' : Z) :
  valid_schedule c ->
  first_qualifying c (d + 1) n ->
  smallest h0 (hours c) -> smallest m0 (minutes c) ->
  matches c r' -> d < Day r' ->
  time_on (d + 1 + Z.of_nat n) h0 m0 <= r'.
Proof.
  intros Hv [_ Hbefore] [_ Hh0] [_ Hm0] Hm Hlater.
  destruct (valid_schedule_bounds c Hv) as [Hhb Hmb].
  pose proof (matches_qualifies c r' Hm) as Hq.
  destruct Hm as (Hmod & Hmin & Hhour & _).
  rewrite Forall_forall in Hh0, Hm0.
  pose proof (Hh0 _ Hhour) as Hh. pose proof (Hm0 _ Hmin) as Hmi.
  pose proof (Hhb _ Hhour) as Hhr. pose proof (Hmb _ Hmin) as Hmr.
  assert (Hday : d + 1 + Z.of_nat n <= Day r').
  { destruct (Z.lt_ge_cases (Day r') (d + 1 + Z.of_nat n)) as [Hlt|]; [|lia].
    specialize (Hbefore (Z.to_nat (Day r' - d - 1))).
    replace (d + 1 + Z.of_nat (Z.to_nat (Day r' - d - 1))) with (Day r')
      in Hbefore by lia.
    rewrite Hbefore in Hq by lia. discriminate. }
  rewrite (time_on_of_components r' Hmod).
  unfold time_on, msPerDay, msPerHour, msPerMinute. nia.
Qed.

Lemma search_start_same_day (t : Z) :
  Day (t + 60000) = Day t ->
  search_start t
  = time_on (Day t) (HourFromTime (t + 60000)) (MinFromTime (t + 60000)).
Proof.
  unfold search_start, Day, HourFromTime, MinFromTime, time_on,
    msPerDay, msPerHour, msPerMinute.
  lia.
Qed.

Lemma search_start_next_day (t : Z) :
  t < search_start t <= (Day t + 1) * msPerDay.
Proof. unfold search_start, Day, msPerDay, msPerMinute. lia. Qed.

(** In an ascending array, the element that [findIndex] finds for the
    test "at least [T]" is the least such element. *)
Lemma first_geq_least (l : list Z) (T : Z) (i : nat) (x : Z) :
  strictly_ascending l ->
  nth_error l i = Some x ->
  (forall j y, (j < i)%nat -> nth_error l j = Some y ->
               geq_num y (Some T) = false) ->
  forall y, In y l -> T <= y -> x <= y.
Proof.
  intros Hasc Hx Hbefore y Hy HT.
  apply In_nth_error in Hy. destruct Hy as (j & Hj).
  destruct (Nat.lt_trichotomy j i) as [Hlt|[->|Hgt]].
  - specialize (Hbefore j y Hlt Hj). simpl in Hbefore.
    apply Z.leb_gt in Hbefore. lia.
  - rewrite Hx in Hj. injection Hj as <-. lia.
  - pose proof (ascending_nth l Hasc i j x y Hgt Hx Hj). lia.
Qed.

(** In an ascending array, an element larger than the one at [i] is at
    least the one at [i + 1], which then exists. *)
Lemma next_in_order (l : list Z) (i : nat) (x y : Z) :
  strictly_ascending l ->
  nth_error l i = Some x -> In y l -> x < y ->
  exists x2, nth_error l (i + 1) = Some x2 /\ x2 <= y.
Proof.
  intros Hasc Hx Hy Hlt.
  apply In_nth_error in Hy. destruct Hy as (j & Hj).
  assert (Hij : (i < j)%nat).
  { destruct (Nat.lt_trichotomy j i) as [H|[E|H]]; [| |assumption].
    - pose proof (ascending_nth l Hasc j i y x H Hj Hx). lia.
    - subst j. rewrite Hx in Hj. injection Hj as ->. lia. }
  destruct (nth_error l (i + 1)) as [x2|] eqn:Hx2.
  - exists x2. split; [reflexivity|].
    destruct (Nat.eq_dec j (i + 1)) as [->|Hne].
    + rewrite Hx2 in Hj. injection Hj as ->. lia.
    + assert (Hlt' : (i + 1 < j)%nat) by lia.
      pose proof (ascending_nth l Hasc (i + 1) j x2 y Hlt' Hx2 Hj). lia.
  - apply nth_error_None in Hx2.
    assert (Hsome : nth_error l j <> None) by congruence.
    apply nth_error_Some in Hsome. lia.
Qed.

Lemma time_on_le (d d' h h' m m' : Z) :
  0 <= h <= 23 -> 0 <= h' <= 23 -> 0 <= m <= 59 -> 0 <= m' <= 59 ->
  d < d' \/ (d = d' /\ (h < h' \/ (h = h' /\ m <= m'))) ->
  time_on d h m <= time_on d' h' m'.
Proof. unfold time_on, msPerDay, msPerHour, msPerMinute. lia. Qed.

Lemma time_on_le_inv (d h h' m m' : Z) :
  0 <= h <= 23 -> 0 <= h' <= 23 -> 0 <= m <= 59 -> 0 <= m' <= 59 ->
  time_on d h m <= time_on d h' m' ->
  h < h' \/ (h = h' /\ m <= m').
Proof. unfold time_on, msPerDay, msPerHour, msPerMinute. lia. Qed.

Lemma HourFromTime_range (t : Z) : 0 <= HourFromTime t <= 23.
Proof. unfold HourFromTime. lia. Qed.

Lemma MinFromTime_range (t : Z) : 0 <= MinFromTime t <= 59.
Proof. unfold MinFromTime. lia. Qed.

(** ** The example schedules *)

Example example_schedules (now : Date) (random : nat -> Z) :
  new_Cron now random "0 9 * * MON" = Ok every_monday_at_nine
  /\ new_Cron now random "*/15 * * * *" = Ok every_quarter_hour
  /\ new_Cron now random "0 0 31 2 *" = Ok february_31st.
Proof. repeat split; vm_compute; reflexivity. Qed.

(** No day is a 31st of February, so [next] never returns for that
    schedule. *)
Lemma february_31st_never (fuel : nat) :
  forall (zDay : Date) (origin : bool), next fuel february_31st zDay origin = None.
Proof.
  induction fuel as [|fuel IH]; intros zDay origin; [reflexivity|].
  destruct zDay as [t|].
  - rewrite next_disqualified; [apply IH|].
    unfold qualifies. cbn [february_31st days months].
    destruct (includes [31] (Some (DateFromDay (Day t)))) eqn:Hd;
      [|reflexivity].
    destruct (includes [2] (Some (MonthFromDay (Day t) + 1))) eqn:Hm;
      [|reflexivity].
    exfalso. apply includes_In in Hd. apply includes_In in Hm.
    destruct Hd as [Hd|[]]. destruct Hm as [Hm|[]].
    pose proof (February_short (Day t)). lia.
  - cbn [next includes getUTCDate option_map negb orb].
    apply IH.
Qed.

(** [Date.UTC] and the years 0-99: for "0 9 * * mon" and Monday the 3rd
    of January of the year 50, 12:00, a call that is not the origin returns
    9:00 on the 3rd of January 1950. *)
Example two_digit_year_ex :
  getUTCFullYear (Some (-60589080000000)) = Some 50
  /\ qualifies every_monday_at_nine (Day (-60589080000000)) = true
  /\ next 1 every_monday_at_nine (Some (-60589080000000)) false
     = Some (Date_UTC (Some 1950) (Some 0) (Some 3) (Some 9) (Some 0)).
Proof. repeat split; reflexivity. Qed.

(** The scenarios of the specification that the code meets:
    "30 14 * * *" from 2024-03-10T10:00Z gives 14:30 that day; "0 9 * * mon"
    from Tuesday 2024-03-05T12:00Z gives the next Monday at 9:00; four
    fields are a structural error. *)
Example scenarios (now : Date) (random : nat -> Z) (n : nat) :
  (exists c,
      new_Cron now random "30 14 * * *" = Ok c
      /\ next (S n) c (Date_UTC (Some 2024) (Some 2) (Some 10) (Some 10) (Some 0))
              true
         = Some (Date_UTC (Some 2024) (Some 2) (Some 10) (Some 14) (Some 30)))
  /\ next (7 + n) every_monday_at_nine
       (Date_UTC (Some 2024) (Some 2) (Some 5) (Some 12) (Some 0)) true
     = Some (Date_UTC (Some 2024) (Some 2) (Some 11) (Some 9) (Some 0))
  /\ new_Cron now random "0 0 * *" = Throw InvalidCron.
Proof.
  split; [eexists; split; [vm_compute; reflexivity | reflexivity]|].
  split; reflexivity.
Qed.

(** A reference moment in the last minute of its day: the hour and the
    minute of one minute later are those of the next day, while line 49
    takes the date of the reference day.  For "0 0 * * *" and
    2024-01-01T23:59Z the origin call returns 2024-01-01T00:00Z. *)
Example last_minute_of_day_ex (n : nat) :
  exists c,
    new_Cron None (fun _ => 0) "0 0 * * *" = Ok c
    /\ next (S n) c (Date_UTC (Some 2024) (Some 0) (Some 1) (Some 23) (Some 59))
            true
       = Some (Date_UTC (Some 2024) (Some 0) (Some 1) (Some 0) (Some 0)).
Proof. eexists. split; [vm_compute; reflexivity | reflexivity]. Qed.

(** The placeholder "?" at the five positions, for every moment: the
    minute, the hour, the day of the month and the weekday of the moment,
    and at position 3 its month counted from 0. *)
Lemma placeholder_fields (t : Z) (random : nat -> Z) :
  normalize_field (Some t) random "?" 0 = Ok (string_of_Z (MinFromTime t))
  /\ normalize_field (Some t) random "?" 1 = Ok (string_of_Z (HourFromTime t))
  /\ normalize_field (Some t) random "?" 2 = Ok (string_of_Z (DateFromTime t))
  /\ normalize_field (Some t) random "?" 3 = Ok (string_of_Z (MonthFromTime t))
  /\ normalize_field (Some t) random "?" 4 = Ok (string_of_Z (WeekDay t))
  /\ 0 <= MonthFromTime t <= 11.
Proof.
  repeat split; try reflexivity; apply MonthFromDay_range.
Qed.

(** * The claims *)

(** C1, as the code has it: for every valid schedule and every reference
    moment such that some day after the reference day qualifies (all within
    the range of [Date], and outside the years 0-99 that [Date.UTC] reads as
    1900-1999), the origin call returns a time value at minute resolution
    whose minute, hour, day of the month, month and weekday are in the
    respective arrays.  It is the smallest such time value at or after the
    start of the search (one minute after the reference moment, cut to the
    minute) when the reference day does not qualify, or when one minute
    after the reference moment it is still the same day and then the hour is
    in the hour array, or beyond all of it, or the minute is not beyond any
    element of the minute array. *)
Theorem C1_next_origin (c : Cron) (t : Z) (n fuel : nat) :
  valid_schedule c ->
  - maxTime <= t ->
  first_qualifying c (Day t + 1) n ->
  day_in_range (Day t + 1 + Z.of_nat n) ->
  ~ two_digit_year (Day t) ->
  ~ two_digit_year (Day t + 1 + Z.of_nat n) ->
  (n + 2 <= fuel)%nat ->
  exists r,
    next fuel c (Some t) true = Some (Some r)
    /\ matches c r
    /\ (well_placed c t ->
        search_start t <= r
        /\ forall r', matches c r' -> search_start t <= r' -> r <= r').
Proof.
  intros Hv Hlo Hfirst Hrange Hy0 Hy1 Hfuel.
  assert (Hjust :
            exists r,
              next (S (S n)) c (Some t) true = Some (Some r)
              /\ matches c r
              /\ (well_placed c t ->
                  search_start t <= r
                  /\ forall r', matches c r' -> search_start t <= r' -> r <= r')).
  {
    pose proof Hv as (Hmin & Hhour & _).
    destruct Hmin as (Hmne & Hmasc & _). destruct Hhour as (Hhne & Hhasc & _).
    destruct (valid_schedule_bounds c Hv) as [Hhb Hmb].
    destruct (ascending_head _ Hhasc Hhne) as (h0 & Hh0 & Hsh).
    destruct (ascending_head _ Hmasc Hmne) as (m0 & Hm0 & Hsm).
    pose proof (Hhb _ (proj1 Hsh)) as Hh0b.
    pose proof (Hmb _ (proj1 Hsm)) as Hm0b.
    set (D := Day t + 1 + Z.of_nat n) in *.
    assert (Hrange0 : day_in_range (Day t)).
    { unfold day_in_range, D, Day, msPerDay, maxTime in *. lia. }
    assert (Htomorrow :
              next (S n) c (TimeClip (t + day)) false
              = Some (Some (time_on D h0 m0))).
    { assert (Hd : Day (t + day) = Day t + 1)
        by (unfold Day, day, msPerDay; lia).
      rewrite TimeClip_valid
        by (unfold day_in_range, D, Day, day, msPerDay, maxTime in *; lia).
      rewrite <- (at_day_time_on D h0 m0) by assumption.
      rewrite <- Hh0, <- Hm0. unfold D. rewrite <- Hd. apply next_search.
      - rewrite Hd. assumption.
      - unfold day, maxTime in *. lia.
      - unfold day_in_range, D, Day, day, msPerDay, maxTime in *. lia.
      - lia. }
    assert (Hnext_matches : matches c (time_on D h0 m0)).
    { apply matches_time_on; try assumption; [apply Hfirst | apply Hsh | apply Hsm]. }
    assert (Hnext_min : forall r', matches c r' -> Day t < Day r' ->
                                   time_on D h0 m0 <= r').
    { intros r' Hm Hl. eapply later_day_candidate; eassumption. }
    assert (Hnext_start : search_start t <= time_on D h0 m0).
    { pose proof (search_start_next_day t).
      unfold D, time_on, msPerDay, msPerHour, msPerMinute in *. lia. }
    assert (Hcand_day : forall r', search_start t <= r' -> Day t <= Day r').
    { intros r' Hs. pose proof (search_start_next_day t).
      unfold Day, msPerDay in *. lia. }
    destruct (qualifies c (Day t)) eqn:Hq.
    2: { exists (time_on D h0 m0).
         rewrite next_disqualified by assumption.
         split; [exact Htomorrow|]. split; [assumption|].
         intros _. split; [assumption|]. intros r' Hm Hs.
         apply Hnext_min; [assumption|].
         pose proof (Hcand_day r' Hs).
         destruct (Z.eq_dec (Day r') (Day t)) as [E|E]; [|lia].
         pose proof (matches_qualifies c r' Hm) as Hq'.
         rewrite E in Hq'. congruence. }
    rewrite next_origin by assumption. cbv zeta.
    rewrite (TimeClip_valid (t + 60000))
      by (unfold day_in_range, D, Day, msPerDay, maxTime in *; lia).
    cbn [getUTCHours getUTCMinutes option_map].
    pose proof (HourFromTime_range (t + 60000)) as HHb.
    pose proof (MinFromTime_range (t + 60000)) as HMb.
    set (H := HourFromTime (t + 60000)) in *.
    set (M := MinFromTime (t + 60000)) in *.
    assert (Hsame : Day (t + 60000) = Day t ->
                    forall r', matches c r' -> search_start t <= r' ->
                               Day r' = Day t ->
                               In (HourFromTime r') (hours c)
                               /\ In (MinFromTime r') (minutes c)
                               /\ r' = time_on (Day t) (HourFromTime r') (MinFromTime r')
                               /\ (H < HourFromTime r'
                                   \/ (HourFromTime r' = H /\ M <= MinFromTime r'))).
    { intros Hd r' Hm Hs E. rewrite (search_start_same_day t Hd) in Hs.
      fold H M in Hs. destruct Hm as (Hmod & Hmi & Hh & _).
      pose proof (time_on_of_components r' Hmod) as Hr. rewrite E in Hr.
      split; [assumption|]. split; [assumption|]. split; [assumption|].
      rewrite Hr in Hs.
      apply time_on_le_inv in Hs;
        auto using HourFromTime_range, MinFromTime_range.
      destruct Hs as [Hs|[Hs1 Hs2]]; [left | right]; auto. }
    assert (Hlater : forall r' h m, matches c r' -> Day t <= Day r' ->
                                    Day r' <> Day t ->
                                    0 <= h <= 23 -> 0 <= m <= 59 ->
                                    time_on (Day t) h m <= r').
    { intros r' h m Hm Hle Hne Hh Hmm.
      destruct Hm as (Hmod & Hmi & Hhh & _).
      rewrite (time_on_of_components r' Hmod).
      apply time_on_le; auto. left. lia. }
    assert (Hplaced :
              well_placed c t ->
              Day (t + 60000) = Day t
              /\ (In H (hours c) \/ Forall (fun h => h < H) (hours c)
                  \/ Forall (fun m => M <= m) (minutes c))).
    { intros [Hwp|Hwp]; [congruence | exact Hwp]. }
    destruct (findIndex (fun hr => geq_num hr (Some H)) (hours c))
      as [hourIndex|] eqn:Hfi.
    - apply findIndex_Some in Hfi. destruct Hfi as (h & Hnh & Hph & Hbefore).
      simpl in Hph. apply Z.leb_le in Hph.
      pose proof (nth_error_In _ _ Hnh) as Hhin.
      pose proof (Hhb _ Hhin) as Hhr.
      assert (HhH : In H (hours c) \/ Forall (fun h => h < H) (hours c) -> h = H).
      { intros [Hin|Hall].
        - pose proof (first_geq_least _ H _ _ Hhasc Hnh Hbefore H Hin). lia.
        - rewrite Forall_forall in Hall. specialize (Hall h Hhin). lia. }
      destruct (findIndex (fun min => geq_num min (Some M)) (minutes c))
        as [minuteIndex|] eqn:Hfm.
      + apply findIndex_Some in Hfm. destruct Hfm as (m & Hnm & Hpm & Hmbefore).
        simpl in Hpm. apply Z.leb_le in Hpm.
        pose proof (nth_error_In _ _ Hnm) as Hmin'.
        pose proof (Hmb _ Hmin') as Hmr.
        rewrite Hnh, Hnm. exists (time_on (Day t) h m).
        rewrite at_day_time_on by auto.
        split; [reflexivity|]. split; [apply matches_time_on; assumption|].
        intros Hwp. destruct (Hplaced Hwp) as [Hd Halt]. split.
        * rewrite (search_start_same_day t Hd). fold H M.
          apply time_on_le; auto. lia.
        * intros r' Hm' Hs. pose proof (Hcand_day r' Hs) as Hge.
          destruct (Z.eq_dec (Day r') (Day t)) as [E|E];
            [|apply Hlater; auto].
          destruct (Hsame Hd r' Hm' Hs E) as (Hh' & Hmi' & Hr & Hord).
          pose proof (Hhb _ Hh') as Hhr'. pose proof (Hmb _ Hmi') as Hmr'.
          rewrite Hr. apply time_on_le; auto. right. split; [reflexivity|].
          assert (Hhle : h <= HourFromTime r').
          { apply (first_geq_least _ H _ _ Hhasc Hnh Hbefore); [assumption|lia]. }
          destruct (Z.eq_dec h (HourFromTime r')) as [Eh|Eh]; [|left; lia].
          right. split; [assumption|].
          apply (first_geq_least _ M _ _ Hmasc Hnm Hmbefore); [assumption|].
          destruct Hord as [Hgt|[_ Hge']]; [|assumption].
          destruct Halt as [Hin|[Hall|Hall]].
          -- specialize (HhH (or_introl Hin)). lia.
          -- specialize (HhH (or_intror Hall)). lia.
          -- rewrite Forall_forall in Hall. apply Hall. assumption.
      + pose proof (findIndex_None _ _ Hfm) as Hnone.
        assert (Hnomin : forall m', In m' (minutes c) -> m' < M).
        { intros m' Hm'. specialize (Hnone m' Hm'). simpl in Hnone.
          apply Z.leb_gt in Hnone. assumption. }
        assert (HhH' : well_placed c t -> Day (t + 60000) = Day t /\ h = H).
        { intros Hwp. destruct (Hplaced Hwp) as [Hd [Hin|[Hall|Hall]]].
          - auto.
          - auto.
          - exfalso. rewrite Forall_forall in Hall.
            specialize (Hall m0 (proj1 Hsm)).
            specialize (Hnomin m0 (proj1 Hsm)). lia. }
        destruct (nth_error (hours c) (hourIndex + 1)) as [h2|] eqn:Hn2.
        * pose proof (nth_error_In _ _ Hn2) as Hh2in.
          pose proof (Hhb _ Hh2in) as Hh2r.
          exists (time_on (Day t) h2 m0). rewrite Hm0.
          rewrite at_day_time_on by auto.
          split; [reflexivity|].
          split; [apply matches_time_on; try assumption; apply Hsm|].
          intros Hwp. destruct (HhH' Hwp) as [Hd ->].
          assert (HH2 : H < h2).
          { apply (ascending_nth _ Hhasc hourIndex (hourIndex + 1));
              [lia | assumption | assumption]. }
          split.
          -- rewrite (search_start_same_day t Hd). fold H M.
             apply time_on_le; auto.
          -- intros r' Hm' Hs. pose proof (Hcand_day r' Hs) as Hge.
             destruct (Z.eq_dec (Day r') (Day t)) as [E|E];
               [|apply Hlater; auto].
             destruct (Hsame Hd r' Hm' Hs E) as (Hh' & Hmi' & Hr & Hord).
             pose proof (Hhb _ Hh') as Hhr'. pose proof (Hmb _ Hmi') as Hmr'.
             rewrite Hr. apply time_on_le; auto. right. split; [reflexivity|].
             destruct Hord as [Hgt|[Heq Hge']].
             ++ destruct (next_in_order _ _ _ _ Hhasc Hnh Hh' Hgt)
                  as (x2 & Hx2 & Hle).
                rewrite Hn2 in Hx2. injection Hx2 as <-.
                destruct Hsm as [_ Hsm]. rewrite Forall_forall in Hsm.
                specialize (Hsm _ Hmi'). lia.
             ++ specialize (Hnomin _ Hmi'). lia.
        * exists (time_on D h0 m0).
          split; [exact Htomorrow|]. split; [assumption|].
          intros Hwp. destruct (HhH' Hwp) as [Hd ->].
          split; [assumption|].
          intros r' Hm' Hs. pose proof (Hcand_day r' Hs) as Hge.
          destruct (Z.eq_dec (Day r') (Day t)) as [E|E];
            [|apply Hnext_min; [assumption | lia]].
          exfalso.
          destruct (Hsame Hd r' Hm' Hs E) as (Hh' & Hmi' & Hr & Hord).
          destruct Hord as [Hgt|[Heq Hge']].
          -- destruct (next_in_order _ _ _ _ Hhasc Hnh Hh' Hgt)
               as (x2 & Hx2 & _). congruence.
          -- specialize (Hnomin _ Hmi'). lia.
    - pose proof (findIndex_None _ _ Hfi) as Hnone.
      assert (Hnohour : forall h', In h' (hours c) -> h' < H).
      { intros h' Hh'. specialize (Hnone h' Hh'). simpl in Hnone.
        apply Z.leb_gt in Hnone. assumption. }
      exists (time_on D h0 m0).
      split; [exact Htomorrow|]. split; [assumption|].
      intros Hwp. split; [assumption|].
      intros r' Hm' Hs. pose proof (Hcand_day r' Hs) as Hge.
      destruct (Z.eq_dec (Day r') (Day t)) as [E|E];
        [|apply Hnext_min; [assumption | lia]].
      exfalso. destruct (Hplaced Hwp) as [Hd _].
      destruct (Hsame Hd r' Hm' Hs E) as (Hh' & Hmi' & Hr & Hord).
      specialize (Hnohour _ Hh'). specialize (Hmb _ Hmi'). lia.
  }
  destruct Hjust as (r & Hnext & Hrest).
  exists r. split; [|exact Hrest].
  apply (next_fuel_monotone c (S (S n))); [assumption | lia].
Qed.

Lemma C1_next_origin_witness :
  exists r,
    next 2 every_quarter_hour (Some 1704103200000) true = Some (Some r)
    /\ matches every_quarter_hour r
    /\ (well_placed every_quarter_hour 1704103200000 ->
        search_start 1704103200000 <= r
        /\ forall r', matches every_quarter_hour r' ->
                      search_start 1704103200000 <= r' -> r <= r').
Proof.
  apply (C1_next_origin every_quarter_hour 1704103200000 0 2).
  - apply valid_scheduleb_sound. reflexivity.
  - unfold maxTime. lia.
  - apply first_qualifyingb_sound. reflexivity.
  - split; [apply Z.leb_le | apply Z.ltb_lt]; reflexivity.
  - intros [_ H]. vm_compute in H. apply H. reflexivity.
  - intros [_ H]. vm_compute in H. apply H. reflexivity.
  - lia.
Defined.

(** C1, as stated, fails.  For "0 0 31 2 *", a valid schedule, no day
    qualifies and the origin call never returns.  For "*/15 * * * *" and the
    reference 2024-01-01T10:14:30Z it returns 10:15:00, which is before the
    reference plus one minute: the search compares hours and minutes only. *)
Lemma C1_as_stated_fails :
  (valid_schedule february_31st
   /\ ~ returns_smallest_after february_31st 1704067200000)
  /\ (valid_schedule every_quarter_hour
      /\ Date_UTC (Some 2024) (Some 0) (Some 1) (Some 10) (Some 14)
         = Some 1704104040000
      /\ ~ returns_smallest_after every_quarter_hour (1704104040000 + 30000)).
Proof.
  split; split.
  - apply valid_scheduleb_sound. reflexivity.
  - intros (fuel & r & Hnext & _). rewrite february_31st_never in Hnext.
    discriminate.
  - apply valid_scheduleb_sound. reflexivity.
  - split; [reflexivity|].
    intros (fuel & r & Hnext & _ & Hge & _).
    destruct fuel as [|fuel]; [discriminate|].
    assert (Hr : next (S fuel) every_quarter_hour
                   (Some (1704104040000 + 30000)) true
                 = Some (Some 1704104100000)) by reflexivity.
    rewrite Hr in Hnext. injection Hnext as <-. lia.
Qed.

(** C2, as the code has it: for every expression that the constructor
    accepts and whose numbers, as written in the normalized expression, are
    safe integers, each of the five parsed arrays is non-empty, strictly
    ascending and free of duplicates; its elements are within the domain of
    the field whenever the bare integers and range ends written in that
    field of the normalized expression are (the parser checks no bounds). *)
Theorem C2_parsed_arrays (now : Date) (random : nat -> Z) (expr : string) (c : Cron) :
  new_Cron now random expr = Ok c ->
  expression_safe (normalized c) = true ->
  Forall (fun l => l <> [] /\ strictly_ascending l /\ NoDup l) (fields c)
  /\ forall i field l lo hi,
       nth_error (split " " (normalized c)) i = Some field ->
       nth_error (fields c) i = Some l ->
       allowedNum i = Some (lo, hi) ->
       written_within lo hi field = true ->
       Forall (fun v => lo <= v <= hi) l.
Proof.
  intros H _. apply new_Cron_fields in H. destruct H as [Hlen Hnth]. split.
  - apply Forall_forall. intros l Hl.
    apply In_nth_error in Hl. destruct Hl as (i & Hi).
    assert (Hlt : (i < 5)%nat).
    { change 5%nat with (List.length (fields c)).
      apply nth_error_Some. rewrite Hi. discriminate. }
    destruct (nth_error (split " " (normalized c)) i) as [field|] eqn:Hf.
    + destruct (Hnth i field Hf) as (l' & Hl' & Hp).
      rewrite Hi in Hl'. injection Hl' as <-.
      apply _parsePart_shape in Hp. destruct Hp as [Hne Hasc].
      repeat split; auto. apply strictly_ascending_NoDup. assumption.
    + apply nth_error_None in Hf. lia.
  - intros i field l lo hi Hf Hl Hdom Hw.
    destruct (Hnth i field Hf) as (l' & Hl' & Hp).
    rewrite Hl in Hl'. injection Hl' as <-.
    eapply _parsePart_within; eassumption.
Qed.

Lemma C2_parsed_arrays_witness :
  exists c,
    new_Cron (Some 0) (fun _ => 0) "*/15 9-17 1,15 * mon-fri" = Ok c
    /\ expression_safe (normalized c) = true
    /\ Forall (fun l => l <> [] /\ strictly_ascending l /\ NoDup l) (fields c).
Proof.
  eexists. split; [vm_compute; reflexivity|]. split; [reflexivity|].
  apply (C2_parsed_arrays (Some 0) (fun _ => 0) "*/15 9-17 1,15 * mon-fri");
    reflexivity.
Defined.

(** C2, as stated, fails: the constructor accepts a minute field of 99 and
    parses it to an array outside 0-59. *)
Lemma C2_out_of_domain :
  exists c,
    new_Cron (Some 0) (fun _ => 0) "99 * * * *" = Ok c
    /\ ~ Forall (fun v => 0 <= v <= 59) (minutes c).
Proof.
  eexists. split; [vm_compute; reflexivity|]. cbn [minutes]. intros H.
  apply Forall_inv in H. lia.
Qed.

(** C5 at the failing input: in the minute field, "5-0" parses to 5..59
    and "0-5" to 0..5.  The upper end 0 is falsy at line 111 and is replaced
    by the upper bound of the domain before [_range] can swap the ends. *)
Theorem C5_reversed_range_to_zero :
  _parsePart "5-0" 0 = Ok (progression 5 1 55)
  /\ _parsePart "0-5" 0 = Ok (progression 0 1 6)
  /\ _parsePart "5-0" 0 <> _parsePart "0-5" 0.
Proof.
  split; [reflexivity|]. split; [reflexivity|]. discriminate.
Qed.

(** C6 at the failing input: in the minute field, "0-0/1" parses to the 60
    elements 0..59 and not to the single element 0.  The upper end 0 is
    falsy at line 111 and is replaced by the upper bound of the domain. *)
Theorem C6_stepped_range_to_zero :
  _parsePart "0-0/1" 0 = Ok (progression 0 1 60)
  /\ (0 - 0) / 1 + 1 = 1
  /\ _parsePart "0-0/1" 0 <> Ok (progression 0 1 1).
Proof.
  split; [reflexivity|]. split; [reflexivity|]. discriminate.
Qed.

(** C7 at the failing input: on 2024-03-10T10:15Z (a Sunday in March) the
    placeholders become minute 15, hour 10, day 10, weekday 0, and month 2:
    line 69 takes [getUTCMonth()], which counts from 0, where the month
    field counts from 1 (line 27 compares [getUTCMonth() + 1]). *)
Theorem C7_month_placeholder_from_zero (random : nat -> Z) :
  Date_UTC (Some 2024) (Some 2) (Some 10) (Some 10) (Some 15)
  = Some 1710065700000
  /\ getUTCMonth (Some 1710065700000) = Some 2
  /\ _normalize (Some 1710065700000) random "? ? ? ? ?"
     = Ok (Str "15 10 10 2 0").
Proof. repeat split; reflexivity. Qed.

(** C8: for "0 0 * * *" and the reference 2024-01-01T00:00:00Z, the origin
    call returns 2024-01-02T00:00:00Z (with one recursive call, so for any
    fuel of at least 2). *)
Theorem C8_midnight_daily (now : Date) (random : nat -> Z) (n : nat) :
  Date_UTC (Some 2024) (Some 0) (Some 1) (Some 0) (Some 0) = Some 1704067200000
  /\ Date_UTC (Some 2024) (Some 0) (Some 2) (Some 0) (Some 0) = Some 1704153600000
  /\ exists c,
       new_Cron now random "0 0 * * *" = Ok c
       /\ next (S (S n)) c (Some 1704067200000) true = Some (Some 1704153600000).
Proof.
  split; [reflexivity|]. split; [reflexivity|].
  eexists. split; [vm_compute; reflexivity | reflexivity].
Qed.

(** C3 at the failing input: for "0,30 14 * * *" and the reference
    2024-03-10T10:15:00Z the day qualifies and the first hour at or after
    the hour of 10:16 is 14 > 10, yet the origin call returns 14:30 and not
    14:00: line 38 filters the minutes by the minute of 10:16 whatever the
    hour found.  For "30 14 * * *" and 10:45 on that day no minute passes
    the filter, the found hour is given up for the one after it (lines
    40-42), there is none, and the call returns 14:30 on the next day. *)
Theorem C3_later_hour_minute_filtered (now : Date) (random : nat -> Z) (n : nat) :
  (exists c,
      new_Cron now random "0,30 14 * * *" = Ok c
      /\ qualifies c (Day 1710065700000) = true
      /\ getUTCHours (Some (1710065700000 + 60000)) = Some 10
      /\ findIndex (fun hr => geq_num hr (Some 10)) (hours c) = Some 0%nat
      /\ hours c = [14] /\ minutes c = [0; 30]
      /\ next (S n) c (Some 1710065700000) true
         = Some (Date_UTC (Some 2024) (Some 2) (Some 10) (Some 14) (Some 30))
      /\ Date_UTC (Some 2024) (Some 2) (Some 10) (Some 14) (Some 30)
         <> Date_UTC (Some 2024) (Some 2) (Some 10) (Some 14) (Some 0))
  /\ (exists c,
         new_Cron now random "30 14 * * *" = Ok c
         /\ Date_UTC (Some 2024) (Some 2) (Some 10) (Some 10) (Some 45)
            = Some 1710067500000
         /\ qualifies c (Day 1710067500000) = true
         /\ next (S (S n)) c (Some 1710067500000) true
            = Some (Date_UTC (Some 2024) (Some 2) (Some 11) (Some 14) (Some 30))).
Proof.
  split.
  - eexists. split; [vm_compute; reflexivity|].
    repeat split; try reflexivity. discriminate.
  - eexists. split; [vm_compute; reflexivity|].
    repeat split; reflexivity.
Qed.

(** C10, as the code has it: for every subpart that the grammar accepts
    and that reaches the call of [_range], the step handed over is at least
    1: it is 1 when the step is omitted or parses to 0, and the parsed step
    otherwise.  So [_range] is never called with step 0.  When the numbers
    written are safe integers, its element count
    floor((max - min) / step) + 1 (its bounds in either order) is at least
    1, and as long as that is a length an array can have, [_range] returns
    a non-empty array of as many elements, which is what the subpart parses
    to; for a larger count [new Array] throws a [RangeError]. *)
Theorem C10_step_at_least_one (part : string) (id : nat) (m : part_match)
  (a b st : Z) :
  partRegex_exec part = Some m ->
  range_args m id = Ok (Some (a, b, st)) ->
  1 <= st
  /\ st = match parseInt_opt (step_of m) with
          | Some v => if v =? 0 then 1 else v
          | None => 1
          end
  /\ (match_safe m = true ->
      1 <= range_count a b st
      /\ if range_count a b st <=? MAX_ARRAY_LENGTH
         then exists l,
                _range a b st = Ok l
                /\ _parsePart_single part id = Ok l
                /\ l <> []
                /\ Z.of_nat (List.length l) = range_count a b st
         else _range a b st = Throw RangeError
              /\ _parsePart_single part id = Throw RangeError).
Proof.
  intros Hexec Hargs.
  pose proof (range_args_step _ _ _ _ _ Hargs) as [Hor Hst].
  split; [assumption|]. split.
  - unfold or_else in Hor. destruct (parseInt_opt (step_of m)) as [v|].
    + destruct (v =? 0); congruence.
    + congruence.
  - intros _. pose proof (range_count_pos a b st Hst) as Hpos.
    split; [assumption|].
    assert (Hsingle : _parsePart_single part id = _range a b st).
    { unfold _parsePart_single.
      rewrite Hexec, parse_match_range_args, Hargs. reflexivity. }
    rewrite Hsingle, (_range_cases a b st Hst).
    destruct (range_count a b st <=? MAX_ARRAY_LENGTH); [|split; reflexivity].
    eexists. split; [reflexivity|]. split; [reflexivity|]. split.
    + intros Hnil. apply (f_equal (@List.length Z)) in Hnil.
      rewrite progression_length in Hnil. simpl in Hnil. lia.
    + rewrite progression_length. lia.
Qed.

Lemma C10_step_at_least_one_witness :
  1 <= 1
  /\ 1 <= range_count 0 59 1
  /\ exists l,
       _range 0 59 1 = Ok l
       /\ _parsePart_single "*/0" 0 = Ok l
       /\ l <> []
       /\ Z.of_nat (List.length l) = range_count 0 59 1.
Proof.
  destruct (C10_step_at_least_one "*/0" 0 (MWild (Some "0")) 0 59 1
              eq_refl eq_refl) as (Hstep & _ & Hrange).
  destruct (Hrange eq_refl) as [Hcount Hl].
  split; [exact Hstep|]. split; [exact Hcount | exact Hl].
Defined.

(** C10, as stated, fails: the grammar accepts "0-4294967295", the step is
    1, and the element count 2^32 is more than an array can hold:
    [new Array] throws a [RangeError] before the loop, and there is no
    result. *)
Lemma C10_range_too_long :
  partRegex_exec "0-4294967295" = Some (MNum "0" (Some "4294967295") None)
  /\ range_args (MNum "0" (Some "4294967295") None) 0
     = Ok (Some (0, 4294967295, 1))
  /\ match_safe (MNum "0" (Some "4294967295") None) = true
  /\ range_count 0 4294967295 1 = 4294967296
  /\ _range 0 4294967295 1 = Throw RangeError
  /\ _parsePart "0-4294967295" 0 = Throw RangeError.
Proof. repeat split; vm_compute; reflexivity. Qed.

(** C9, as the code has it: for every valid schedule and every reference
    moment such that some day at or after the reference day qualifies
    (within the range of [Date]), a call that is not the origin returns the
    first such day, combined by [Date.UTC] with the smallest hour and the
    smallest minute of the schedule, whatever the time of day of the
    reference moment.  Outside the years 0-99, which [Date.UTC] reads as
    1900-1999, that is the time value of that hour and minute on that day. *)
Theorem C9_next_not_origin (c : Cron) (t : Z) (n fuel : nat) :
  valid_schedule c ->
  first_qualifying c (Day t) n ->
  - maxTime <= t ->
  day_in_range (Day t + Z.of_nat n) ->
  (n < fuel)%nat ->
  exists h0 m0,
    smallest h0 (hours c) /\ smallest m0 (minutes c)
    /\ next fuel c (Some t) false
       = Some (at_day (Day t + Z.of_nat n) (Some h0) (Some m0))
    /\ (~ two_digit_year (Day t + Z.of_nat n) ->
        at_day (Day t + Z.of_nat n) (Some h0) (Some m0)
        = Some (time_on (Day t + Z.of_nat n) h0 m0)).
Proof.
  intros (Hmin & Hhour & _) Hfirst Hlo Hrange Hfuel.
  destruct Hmin as (Hmne & Hmasc & mlo & mhi & Hmdom & Hmall).
  destruct Hhour as (Hhne & Hhasc & hlo & hhi & Hhdom & Hhall).
  destruct (ascending_head _ Hhasc Hhne) as (h0 & Hh0 & Hsh).
  destruct (ascending_head _ Hmasc Hmne) as (m0 & Hm0 & Hsm).
  exists h0, m0. split; [assumption|]. split; [assumption|]. split.
  - rewrite <- Hh0, <- Hm0. apply next_search; try assumption.
    unfold day_in_range, Day, msPerDay, maxTime in *. lia.
  - intros Hy. simpl in Hmdom, Hhdom.
    injection Hmdom as <- <-. injection Hhdom as <- <-.
    rewrite Forall_forall in Hmall, Hhall.
    apply at_day_time_on; try assumption.
    + apply Hhall, Hsh.
    + apply Hmall, Hsm.
Qed.

Lemma C9_next_not_origin_witness :
  exists h0 m0,
    smallest h0 (hours every_monday_at_nine)
    /\ smallest m0 (minutes every_monday_at_nine)
    /\ next 7 every_monday_at_nine (Some 1709640000000) false
       = Some (at_day (Day 1709640000000 + Z.of_nat 6) (Some h0) (Some m0))
    /\ (~ two_digit_year (Day 1709640000000 + Z.of_nat 6) ->
        at_day (Day 1709640000000 + Z.of_nat 6) (Some h0) (Some m0)
        = Some (time_on (Day 1709640000000 + Z.of_nat 6) h0 m0)).
Proof.
  apply (C9_next_not_origin every_monday_at_nine 1709640000000 6 7).
  - apply valid_scheduleb_sound. reflexivity.
  - apply first_qualifyingb_sound. reflexivity.
  - unfold maxTime. lia.
  - split; [apply Z.leb_le | apply Z.ltb_lt]; reflexivity.
  - lia.
Defined.

(** C9, as stated, fails: "0 0 31 2 *" is a valid schedule that no day
    satisfies, and the call never returns for it: the search of line 27
    has no bound. *)
Lemma C9_never_returns :
  valid_schedule february_31st
  /\ forall fuel, next fuel february_31st (Some 1704067200000) false = None.
Proof.
  split; [apply valid_scheduleb_sound; reflexivity|].
  intros fuel. apply february_31st_never.
Qed.




(** * Further properties of the code *)

(** ** Numbers as text *)

Lemma string_of_uint_digits (d : Decimal.uint) :
  all_digits (NilEmpty.string_of_uint d) = true.
Proof. induction d; simpl; auto. Qed.

Ltac eval_digit :=
  match goal with
  | |- context [is_digit ?c] => change (is_digit c) with true; cbv iota
  end;
  match goal with
  | |- context [digit_value ?c] =>
      let v := eval vm_compute in (digit_value c) in
      change (digit_value c) with v
  end.

Lemma parse_digits_of_uint_acc (d : Decimal.uint) :
  forall acc : positive,
    parse_digits (Zpos acc) (NilEmpty.string_of_uint d)
    = Zpos (Pos.of_uint_acc d acc).
Proof.
  induction d; intros acc;
    cbn [NilEmpty.string_of_uint parse_digits Pos.of_uint_acc];
    try reflexivity;
    eval_digit; rewrite <- IHd; f_equal; lia.
Qed.

Lemma parse_digits_of_uint (d : Decimal.uint) :
  parse_digits 0 (NilEmpty.string_of_uint d) = Z.of_N (Pos.of_uint d).
Proof.
  induction d; cbn [NilEmpty.string_of_uint parse_digits Pos.of_uint];
    try reflexivity;
    eval_digit; try exact IHd;
    cbn [Z.of_N]; rewrite <- parse_digits_of_uint_acc; reflexivity.
Qed.

Lemma string_of_Z_number (v : Z) :
  0 <= v -> is_number (string_of_Z v) = true /\ parseInt (string_of_Z v) = v.
Proof.
  intros Hv. destruct v as [|p|p]; [split; reflexivity | | lia].
  unfold string_of_Z, parseInt. cbn [Z.to_int NilZero.string_of_int].
  pose proof (Unsigned.to_uint_nonnil p) as Hnn.
  pose proof (Unsigned.of_to p) as Hof.
  unfold NilZero.string_of_uint.
  destruct (Pos.to_uint p) as [|d|d|d|d|d|d|d|d|d|d] eqn:E; [congruence| ..];
    (split; [apply (string_of_uint_digits (_ d)) |
             rewrite parse_digits_of_uint, Hof; reflexivity]).
Qed.

(** ** The grammar on numbers *)

Lemma digits_exclude (c : ascii) (s : string) :
  is_digit c = false -> all_digits s = true -> includes_char c s = false.
Proof.
  intros Hc. induction s as [|a s IH]; simpl; [reflexivity|].
  intros H. apply andb_true_iff in H. destruct H as [Ha Hs].
  rewrite (IH Hs), orb_false_r.
  destruct (Ascii.eqb_spec a c) as [->|]; [congruence | reflexivity].
Qed.

Lemma is_number_digits (s : string) : is_number s = true -> all_digits s = true.
Proof. destruct s; [discriminate | auto]. Qed.

Lemma cut_no_sep (sep : ascii) (s : string) :
  includes_char sep s = false -> cut sep s = (s, None).
Proof.
  induction s as [|c s IH]; simpl; [reflexivity|].
  intros H. apply orb_false_iff in H. destruct H as [Hc Hs].
  rewrite Hc, (IH Hs). reflexivity.
Qed.

Lemma cut_at_sep (sep : ascii) (a b : string) :
  includes_char sep a = false ->
  cut sep (a ++ String sep b) = (a, Some b).
Proof.
  induction a as [|c a IH]; simpl.
  - rewrite Ascii.eqb_refl. reflexivity.
  - intros H. apply orb_false_iff in H. destruct H as [Hc Ha].
    rewrite Hc, (IH Ha). reflexivity.
Qed.

Lemma number_not_star (s : string) :
  is_number s = true -> String.eqb s "*" = false.
Proof.
  destruct s as [|c s]; [discriminate|]. simpl. intros H.
  apply andb_true_iff in H. destruct H as [Hc _].
  destruct (Ascii.eqb_spec c "*") as [->|]; [discriminate | reflexivity].
Qed.

Lemma exec_number (s : string) :
  is_number s = true -> partRegex_exec s = Some (MNum s None None).
Proof.
  intros H. pose proof (is_number_digits s H) as Hd. unfold partRegex_exec.
  rewrite (cut_no_sep "/" s) by (apply digits_exclude; auto).
  cbn [negb]. rewrite (number_not_star s H).
  rewrite (cut_no_sep "-" s) by (apply digits_exclude; auto).
  rewrite H. reflexivity.
Qed.

Lemma range_text_no_slash (a b : string) :
  is_number a = true -> is_number b = true ->
  includes_char "/" (a ++ String "-" b) = false.
Proof.
  intros Ha Hb. apply is_number_digits in Ha. apply is_number_digits in Hb.
  induction a as [|c a IH]; simpl.
  - apply digits_exclude; auto.
  - simpl in Ha. apply andb_true_iff in Ha. destruct Ha as [Hc Ha].
    rewrite (IH Ha), orb_false_r.
    destruct (Ascii.eqb_spec c "/") as [->|]; [discriminate | reflexivity].
Qed.

Lemma range_text_not_star (a b : string) :
  is_number a = true -> String.eqb (a ++ String "-" b) "*" = false.
Proof.
  destruct a as [|c a]; [discriminate|]. simpl. intros H.
  apply andb_true_iff in H. destruct H as [Hc _].
  destruct (Ascii.eqb_spec c "*") as [->|]; [discriminate | reflexivity].
Qed.

Lemma exec_range (a b : string) :
  is_number a = true -> is_number b = true ->
  partRegex_exec (a ++ String "-" b) = Some (MNum a (Some b) None).
Proof.
  intros Ha Hb. unfold partRegex_exec.
  rewrite (cut_no_sep "/") by (apply range_text_no_slash; assumption).
  cbn [negb]. rewrite range_text_not_star by assumption.
  rewrite cut_at_sep
    by (apply digits_exclude; [reflexivity | apply is_number_digits; assumption]).
  rewrite Ha, Hb. reflexivity.
Qed.

Lemma exec_wild_step (st : string) :
  is_number st = true ->
  partRegex_exec (String "*" (String "/" st)) = Some (MWild (Some st)).
Proof.
  intros H. unfold partRegex_exec.
  change (String "*" (String "/" st)) with ("*" ++ String "/" st).
  rewrite cut_at_sep by reflexivity. rewrite H. reflexivity.
Qed.

Lemma number_no_comma (s : string) :
  is_number s = true -> includes_char "," s = false.
Proof.
  intros H. apply digits_exclude; [reflexivity | apply is_number_digits; assumption].
Qed.

Lemma range_text_no_comma (a b : string) :
  is_number a = true -> is_number b = true ->
  includes_char "," (a ++ String "-" b) = false.
Proof.
  intros Ha Hb. apply is_number_digits in Ha. apply is_number_digits in Hb.
  induction a as [|c a IH]; simpl.
  - apply digits_exclude; auto.
  - simpl in Ha. apply andb_true_iff in Ha. destruct Ha as [Hc Ha].
    rewrite (IH Ha), orb_false_r.
    destruct (Ascii.eqb_spec c ",") as [->|]; [discriminate | reflexivity].
Qed.

(** The text of a number parses, at any position, to that number alone. *)
Lemma number_text_parses (v : Z) (id : nat) :
  0 <= v -> _parsePart (string_of_Z v) id = Ok [v].
Proof.
  intros Hv. destruct (string_of_Z_number v Hv) as [Hn Hp].
  unfold _parsePart. rewrite (number_no_comma _ Hn).
  unfold _parsePart_single. rewrite (exec_number _ Hn).
  cbn [parse_match]. rewrite Hp. reflexivity.
Qed.

Lemma progression_In_unit (lo hi v : Z) :
  lo <= hi ->
  In v (progression lo 1 (Z.to_nat ((hi - lo) / 1 + 1))) <-> lo <= v <= hi.
Proof.
  intros Hle. rewrite progression_In. split.
  - intros (k & Hk & ->). lia.
  - intros Hv. exists (Z.to_nat (v - lo)). split; lia.
Qed.

(** The elements of a progression up to [hi]: the numbers from [lo] to
    [hi] at a multiple of [step] from [lo]. *)
Lemma progression_In_step (lo hi step v : Z) :
  1 <= step -> lo <= hi ->
  In v (progression lo step (Z.to_nat ((hi - lo) / step + 1)))
  <-> lo <= v <= hi /\ (v - lo) mod step = 0.
Proof.
  intros Hst Hle. rewrite progression_In. split.
  - intros (k & Hk & ->).
    assert (0 <= (hi - lo) / step) by (apply Z.div_pos; lia).
    assert (step * ((hi - lo) / step) <= hi - lo) by (apply Z.mul_div_le; lia).
    split; [nia|].
    replace (lo + Z.of_nat k * step - lo) with (Z.of_nat k * step) by lia.
    apply Z.mod_mul. lia.
  - intros [Hv Hmod].
    exists (Z.to_nat ((v - lo) / step)).
    assert (Hdiv : v - lo = step * ((v - lo) / step)).
    { pose proof (Z.div_mod (v - lo) step). lia. }
    assert (0 <= (v - lo) / step) by (apply Z.div_pos; lia).
    assert ((v - lo) / step <= (hi - lo) / step)
      by (apply Z.div_le_mono; lia).
    split; [lia|]. rewrite Z2Nat.id by lia. lia.
Qed.

Lemma ascending_same_members (l1 : list Z) :
  strictly_ascending l1 ->
  forall l2, strictly_ascending l2 ->
             (forall v, In v l1 <-> In v l2) -> l1 = l2.
Proof.
  induction 1 as [|x xs Hxs IH Hx]; intros l2 H2 Hsame.
  - destruct l2 as [|y ys]; [reflexivity|].
    exfalso. apply (Hsame y). left. reflexivity.
  - destruct l2 as [|y ys].
    + exfalso. apply (Hsame x). left. reflexivity.
    + inversion H2 as [|? ? Hys Hy]; subst.
      rewrite Forall_forall in Hx, Hy.
      assert (x = y).
      { destruct (proj1 (Hsame x) (or_introl eq_refl)) as [E|Hin]; [auto|].
        destruct (proj2 (Hsame y) (or_introl eq_refl)) as [E|Hin']; [auto|].
        specialize (Hx _ Hin'). specialize (Hy _ Hin). lia. }
      subst y. f_equal. apply IH; [assumption|].
      intros v. split; intros Hv.
      * destruct (proj1 (Hsame v) (or_intror Hv)) as [E|]; [|assumption].
        subst v. specialize (Hx _ Hv). lia.
      * destruct (proj2 (Hsame v) (or_intror Hv)) as [E|]; [|assumption].
        subst v. specialize (Hy _ Hv). lia.
Qed.

(** At the five positions the arguments of [_range] are defined. *)
Lemma range_args_defined (m : part_match) (id : nat) :
  (id < 5)%nat -> exists r, range_args m id = Ok r.
Proof.
  intros Hid.
  assert (Hdom : exists lo hi, allowedNum id = Some (lo, hi)).
  { destruct id as [|[|[|[|[|id]]]]]; simpl; eauto. lia. }
  destruct Hdom as (lo & hi & Hdom).
  assert (Hmax : forall x, exists v, or_else x (allowedNum_max id) = Ok v).
  { intros x. unfold or_else, allowedNum_max. rewrite Hdom.
    destruct x as [w|]; [destruct (w =? 0)|]; eauto. }
  destruct m as [step | mn mx step]; unfold range_args.
  - rewrite Hdom. destruct (Hmax (Some hi)) as (v & ->). cbn [bind].
    destruct (step_coerced step) as (st & -> & _). cbn [bind]. eauto.
  - destruct (Hmax (parseInt_opt mx)) as (v & Hv).
    destruct (step_coerced step) as (st & Hst & _).
    destruct mx as [mx|], step as [step|]; eauto;
      rewrite Hv; cbn [bind]; rewrite Hst; cbn [bind]; eauto.
Qed.

(** At the five positions a match parses, unless its range is longer than
    an array can be: then [_range] throws a [RangeError]. *)
Lemma parse_match_outcome (m : part_match) (id : nat) :
  (id < 5)%nat ->
  if range_fits m id then exists l, parse_match m id = Ok l
  else parse_match m id = Throw RangeError.
Proof.
  intros Hid. destruct (range_args_defined m id Hid) as (r & Hargs).
  unfold range_fits. rewrite parse_match_range_args, Hargs.
  destruct r as [[[a b] st]|].
  - apply range_args_step in Hargs. destruct Hargs as [_ Hst].
    rewrite _range_cases by assumption.
    destruct (range_count a b st <=? MAX_ARRAY_LENGTH); eauto.
  - destruct m; eauto.
Qed.

(** The loop of line 102 at the five positions: it ends without an error
    exactly when every piece matches and no range is too long; the error
    of the first piece that fails is a [TypeError] when that piece does
    not match, a [RangeError] when its range is too long. *)
Lemma parse_pieces_outcome (id : nat) :
  (id < 5)%nat ->
  forall pieces res,
    let matched := fun p => partRegex_exec p <> None in
    let fit := fun p => match partRegex_exec p with
                        | Some m => range_fits m id = true
                        | None => True
                        end in
    match parse_pieces pieces id res with
    | Ok _ => Forall matched pieces /\ Forall fit pieces
    | Throw e => (e = TypeError /\ ~ Forall matched pieces)
                 \/ (e = RangeError /\ ~ Forall fit pieces)
    end.
Proof.
  intros Hid. induction pieces as [|p ps IH]; intros res matched fit.
  - simpl. split; constructor.
  - cbn [parse_pieces]. unfold _parsePart_single.
    destruct (partRegex_exec p) as [m|] eqn:Hp.
    + pose proof (parse_match_outcome m id Hid) as Hm.
      destruct (range_fits m id) eqn:Hfit.
      * destruct Hm as (r & ->). cbn [bind].
        specialize (IH (res ++ r)%list). cbv zeta in IH.
        destruct (parse_pieces ps id (res ++ r)) as [l|e].
        -- destruct IH as [H1 H2]. split; constructor; auto.
           ++ unfold matched. rewrite Hp. discriminate.
           ++ unfold fit. rewrite Hp. assumption.
        -- destruct IH as [[-> H]|[-> H]]; [left | right];
             (split; [reflexivity|]); intros Hall; apply H;
             inversion Hall; assumption.
      * rewrite Hm. cbn [bind]. right. split; [reflexivity|].
        intros Hall. inversion Hall as [|? ? Hf _]; subst.
        unfold fit in Hf. rewrite Hp in Hf. congruence.
    + cbn [bind]. left. split; [reflexivity|].
      intros Hall. inversion Hall as [|? ? Hf _]; subst.
      unfold matched in Hf. congruence.
Qed.

Lemma split_length (sep : ascii) (s : string) :
  List.length (split sep s) = S (count_char sep s).
Proof.
  induction s as [|c s IH]; simpl; [reflexivity|].
  destruct (Ascii.eqb c sep); simpl; [congruence|].
  destruct (split sep s); simpl in *; congruence.
Qed.

Lemma map_indexed_accepts {A B : Type} (f : A -> nat -> result B) :
  forall (l : list A) (i : nat),
    (forall k x, nth_error l k = Some x -> exists y, f x (i + k)%nat = Ok y) ->
    exists r, map_indexed f i l = Ok r.
Proof.
  induction l as [|a l IH]; intros i H; [simpl; eauto|].
  cbn [map_indexed].
  destruct (H 0%nat a eq_refl) as (y & Hy). rewrite Nat.add_0_r in Hy.
  rewrite Hy. cbn [bind].
  destruct (IH (S i)) as (r & Hr).
  { intros k x Hk. destruct (H (S k) x Hk) as (z & Hz).
    exists z. rewrite <- Hz. f_equal. lia. }
  rewrite Hr. cbn [bind]. eauto.
Qed.

(** ** What [next] returns *)

(** On an invalid date no day qualifies, and the date one day later is
    invalid again. *)
Lemma next_invalid (c : Cron) (fuel : nat) (origin : bool) :
  next fuel c None origin = None.
Proof.
  revert origin. induction fuel as [|fuel IH]; intros origin; [reflexivity|].
  cbn [next includes getUTCDate option_map negb orb]. apply IH.
Qed.

(** Whatever [next] returns was built at line 49 from a qualifying day at or
    after the reference day, an hour that is the first of the hour array or
    one of its elements, and likewise a minute. *)
Lemma next_shape (c : Cron) :
  forall (fuel : nat) (t : Z) (origin : bool) (res : Date),
    next fuel c (Some t) origin = Some res ->
    exists D h m,
      Day t <= D /\ qualifies c D = true /\ res = at_day D h m
      /\ (h = hd_error (hours c) \/ exists x, h = Some x /\ In x (hours c))
      /\ (m = hd_error (minutes c) \/ exists x, m = Some x /\ In x (minutes c))
      /\ (origin = false -> h = hd_error (hours c) /\ m = hd_error (minutes c)).
Proof.
  induction fuel as [|fuel IH]; intros t origin res H; [discriminate|].
  assert (Hrec : next fuel c (TimeClip (t + day)) false = Some res ->
                 exists D h m,
                   Day t <= D /\ qualifies c D = true /\ res = at_day D h m
                   /\ (h = hd_error (hours c) \/ exists x, h = Some x /\ In x (hours c))
                   /\ (m = hd_error (minutes c) \/ exists x, m = Some x /\ In x (minutes c))
                   /\ (origin = false -> h = hd_error (hours c) /\ m = hd_error (minutes c))).
  { intros Hn. unfold TimeClip in Hn.
    destruct (Z.abs (t + day) <=? maxTime); [|rewrite next_invalid in Hn; discriminate].
    apply IH in Hn. destruct Hn as (D & h & m & HD & Hq & Hres & Hh & Hm & Ho).
    exists D, h, m. repeat split; auto.
    - unfold Day, day, msPerDay in *. lia.
    - apply Ho; reflexivity.
    - apply Ho; reflexivity. }
  destruct (qualifies c (Day t)) eqn:Hq.
  - destruct origin.
    + rewrite next_origin in H by assumption. cbv zeta in H.
      destruct (findIndex _ (hours c)) as [hourIndex|] eqn:Hfi; [|auto].
      destruct (findIndex _ (minutes c)) as [minuteIndex|] eqn:Hfm.
      * injection H as <-.
        apply findIndex_Some in Hfi. destruct Hfi as (h & Hh & _).
        apply findIndex_Some in Hfm. destruct Hfm as (m & Hm & _).
        exists (Day t), (Some h), (Some m). rewrite Hh, Hm.
        repeat split; try lia; try assumption; try discriminate.
        -- right. exists h. split; [reflexivity | eapply nth_error_In; eassumption].
        -- right. exists m. split; [reflexivity | eapply nth_error_In; eassumption].
      * destruct (nth_error (hours c) (hourIndex + 1)) as [h2|] eqn:Hn2; [|auto].
        injection H as <-.
        exists (Day t), (Some h2), (hd_error (minutes c)).
        repeat split; try lia; try assumption; try discriminate; auto.
        right. exists h2. split; [reflexivity | eapply nth_error_In; eassumption].
    + rewrite next_qualified in H by assumption. injection H as <-.
      exists (Day t), (hd_error (hours c)), (hd_error (minutes c)).
      repeat split; try lia; auto.
  - rewrite next_disqualified in H by assumption. auto.
Qed.

Lemma DayFromYear_monotone (y y' : Z) : y <= y' -> DayFromYear y <= DayFromYear y'.
Proof. unfold DayFromYear. lia. Qed.

Lemma YearFromDay_monotone (d d' : Z) : d <= d' -> YearFromDay d <= YearFromDay d'.
Proof.
  intros Hle. pose proof (YearFromDay_spec d) as H.
  pose proof (YearFromDay_spec d') as H'.
  destruct (Z.le_gt_cases (YearFromDay d) (YearFromDay d')) as [|Hgt]; [assumption|].
  pose proof (DayFromYear_monotone (YearFromDay d' + 1) (YearFromDay d)). lia.
Qed.

Lemma at_day_inv (d h m r : Z) :
  ~ two_digit_year d -> at_day d (Some h) (Some m) = Some r -> r = time_on d h m.
Proof.
  intros Hy. unfold at_day, Date_UTC, two_digit_year in *.
  assert (Hcond : (0 <=? YearFromDay d) && (YearFromDay d <=? 99) = false).
  { destruct (Z.leb_spec 0 (YearFromDay d)), (Z.leb_spec (YearFromDay d) 99);
      cbn [andb]; try reflexivity. lia. }
  rewrite Hcond, MakeDay_of_day. unfold MakeDate, MakeTime.
  replace (d * msPerDay + (h * msPerHour + m * msPerMinute + 0 * 1000 + 0))
    with (time_on d h m) by (unfold time_on; lia).
  unfold new_Date, TimeClip.
  destruct (Z.abs (time_on d h m) <=? maxTime) eqn:E; [|discriminate].
  rewrite E. congruence.
Qed.

Lemma valid_heads (c : Cron) :
  valid_schedule c ->
  exists h0 m0, hd_error (hours c) = Some h0 /\ hd_error (minutes c) = Some m0
                /\ In h0 (hours c) /\ In m0 (minutes c).
Proof.
  intros (Hmin & Hhour & _).
  destruct Hmin as (Hmne & Hmasc & _). destruct Hhour as (Hhne & Hhasc & _).
  destruct (ascending_head _ Hhasc Hhne) as (h0 & Hh0 & Hsh & _).
  destruct (ascending_head _ Hmasc Hmne) as (m0 & Hm0 & Hsm & _).
  eauto 10.
Qed.

(** ** [_normalize] on plain expressions *)

Lemma join_split (s : string) : join " " (split " " s) = s.
Proof.
  induction s as [|c s IH]; [reflexivity|]. cbn [split].
  pose proof (split_not_nil " " s) as Hne.
  destruct (Ascii.eqb_spec c " ") as [->|Hc].
  - destruct (split " " s) as [|q qs]; [congruence|].
    cbn [join]. cbn [join] in IH. simpl. f_equal. exact IH.
  - destruct (split " " s) as [|q qs]; [congruence|].
    destruct qs as [|q' qs]; cbn [join] in *; simpl; f_equal; exact IH.
Qed.

Lemma plain_char_cases (c : ascii) :
  plain_char c = true ->
  is_lower c = false /\ Ascii.eqb c "@" = false /\ Ascii.eqb c "?" = false
  /\ lower_char c = c.
Proof.
  destruct c as [[] [] [] [] [] [] [] []]; vm_compute; intros H;
    try discriminate; repeat split; reflexivity.
Qed.

Lemma split_plain (s : string) :
  all_plain s = true -> Forall (fun f => all_plain f = true) (split " " s).
Proof.
  induction s as [|c s IH]; cbn [split all_plain]; intros H.
  - constructor; [reflexivity | constructor].
  - apply andb_true_iff in H. destruct H as [Hc Hs]. specialize (IH Hs).
    destruct (Ascii.eqb c " ").
    + constructor; [reflexivity | assumption].
    + destruct (split " " s) as [|q qs].
      * constructor; [simpl; rewrite Hc; reflexivity | constructor].
      * inversion IH as [|? ? Hq Hqs]; subst.
        constructor; [simpl; rewrite Hc, Hq; reflexivity | assumption].
Qed.

Lemma normalize_field_plain (now : Date) (random : nat -> Z) (val : string) (i : nat) :
  all_plain val = true -> normalize_field now random val i = Ok val.
Proof.
  intros H. unfold normalize_field.
  destruct val as [|c val]; [reflexivity|].
  cbn [all_plain] in H. apply andb_true_iff in H. destruct H as [Hc _].
  destruct (plain_char_cases c Hc) as (Hl & _ & Hq & _).
  assert (Hh : Ascii.eqb c "h" = false).
  { destruct (Ascii.eqb_spec c "h") as [->|]; [discriminate | reflexivity]. }
  cbn [String.eqb]. rewrite Hh, Hq. reflexivity.
Qed.

Lemma map_indexed_unchanged {A : Type} (f : A -> nat -> result A) (P : A -> Prop) :
  (forall x i, P x -> f x i = Ok x) ->
  forall l i, Forall P l -> map_indexed f i l = Ok l.
Proof.
  intros Hf. induction l as [|x l IH]; intros i Hall; [reflexivity|].
  inversion Hall as [|? ? Hx Hl]; subst. cbn [map_indexed].
  rewrite (Hf x i Hx). cbn [bind]. rewrite (IH (S i) Hl). reflexivity.
Qed.

Lemma lookup_plain (s : string) :
  all_plain s = true -> lookup s predefined = None.
Proof.
  destruct s as [|c s]; [reflexivity|]. cbn [all_plain]. intros H.
  apply andb_true_iff in H. destruct H as [Hc _].
  destruct (plain_char_cases c Hc) as (_ & Hat & _).
  unfold predefined. cbn [lookup String.eqb]. rewrite Hat. reflexivity.
Qed.

Lemma inherited_plain (s : string) :
  all_plain s = true -> existsb (String.eqb s) Object_prototype_keys = false.
Proof.
  destruct s as [|c s]; [reflexivity|]. cbn [all_plain]. intros H.
  apply andb_true_iff in H. destruct H as [Hc _]. revert Hc.
  destruct c as [[] [] [] [] [] [] [] []]; vm_compute; intros H;
    try discriminate; reflexivity.
Qed.

Lemma match_token_plain (c : ascii) (s : string) :
  is_lower c = false -> match_token tokens (String c s) = None.
Proof.
  intros Hc.
  assert (Hgen : forall table,
             forallb (fun kv => match fst kv with
                                | String a _ => is_lower a
                                | EmptyString => false
                                end) table = true ->
             match_token table (String c s) = None).
  { induction table as [|[k v] table IH]; [reflexivity|].
    cbn [forallb fst match_token]. intros H.
    apply andb_true_iff in H. destruct H as [Hk Ht].
    destruct k as [|a k]; [discriminate|]. cbn [starts_with].
    destruct (Ascii.eqb_spec a c) as [->|]; [congruence|].
    cbn [andb]. apply IH. assumption. }
  apply Hgen. reflexivity.
Qed.

Lemma replace_tokens_plain (s : string) :
  all_plain s = true -> replace_tokens 0 s = s.
Proof.
  induction s as [|c s IH]; [reflexivity|]. cbn [all_plain]. intros H.
  apply andb_true_iff in H. destruct H as [Hc Hs].
  destruct (plain_char_cases c Hc) as (Hl & _).
  cbn [replace_tokens]. rewrite (match_token_plain c s Hl), (IH Hs). reflexivity.
Qed.

Lemma toLowerCase_plain (s : string) : all_plain s = true -> toLowerCase s = s.
Proof.
  induction s as [|c s IH]; [reflexivity|]. cbn [all_plain toLowerCase].
  intros H. apply andb_true_iff in H. destruct H as [Hc Hs].
  destruct (plain_char_cases c Hc) as (_ & _ & _ & Hlc).
  rewrite Hlc, (IH Hs). reflexivity.
Qed.

(** ** The properties *)

(** At the five positions a field parses exactly when all its pieces match
    [partRegex] and none is a range longer than an array can be; otherwise
    it throws a [TypeError] or a [RangeError], as the first piece that
    fails is of the one or of the other kind. *)
Lemma _parsePart_outcome (field : string) (id : nat) :
  (id < 5)%nat ->
  match _parsePart field id with
  | Ok _ => pieces_match field /\ pieces_fit field id
  | Throw e => (e = TypeError /\ ~ pieces_match field)
               \/ (e = RangeError /\ ~ pieces_fit field id)
  end.
Proof.
  intros Hid. unfold pieces_match, pieces_fit, _parsePart.
  destruct (includes_char "," field) eqn:Hc.
  - pose proof (parse_pieces_outcome id Hid (split "," field) []) as H.
    cbv zeta in H.
    destruct (parse_pieces (split "," field) id []); cbn [bind]; exact H.
  - rewrite (split_no_sep _ _ Hc).
    pose proof (parse_pieces_outcome id Hid [field] []) as H.
    cbv zeta in H. cbn [parse_pieces app] in H.
    destruct (_parsePart_single field id); cbn [bind] in H; exact H.
Qed.

Lemma parses_iff_accepted (field : string) (id : nat) :
  (id < 5)%nat ->
  (exists l, _parsePart field id = Ok l)
  <-> pieces_match field /\ pieces_fit field id.
Proof.
  intros Hid. pose proof (_parsePart_outcome field id Hid) as H.
  destruct (_parsePart field id) as [l|e].
  - split; [intros _; assumption | eauto].
  - split; [intros (l & Hl); discriminate|].
    intros [Hm Hf]. destruct H as [[_ H]|[_ H]]; contradiction.
Qed.

(** X1: on safe integers and with a step of at least 1, [_range] takes
    its two bounds in either order.  When the count of its elements is a
    length an array can have, it returns, in strictly ascending order,
    exactly the numbers from the smaller to the larger bound that lie a
    multiple of the step above the smaller bound; otherwise it throws a
    [RangeError]. *)
Theorem range_contents (a b step : Z) :
  0 <= a <= MAX_SAFE_INTEGER ->
  0 <= b <= MAX_SAFE_INTEGER ->
  1 <= step <= MAX_SAFE_INTEGER ->
  if range_count a b step <=? MAX_ARRAY_LENGTH
  then exists l,
         _range a b step = Ok l
         /\ _range b a step = Ok l
         /\ strictly_ascending l
         /\ Z.of_nat (List.length l) = range_count a b step
         /\ forall v, In v l <->
                      Z.min a b <= v <= Z.max a b
                      /\ (v - Z.min a b) mod step = 0
  else _range a b step = Throw RangeError
       /\ _range b a step = Throw RangeError.
Proof.
  intros _ _ [Hst _]. pose proof (range_count_pos a b step Hst) as Hpos.
  rewrite (_range_comm b a), (_range_cases a b step Hst).
  destruct (range_count a b step <=? MAX_ARRAY_LENGTH); [|split; reflexivity].
  eexists. split; [reflexivity|]. split; [reflexivity|]. split; [|split].
  - apply progression_ascending. assumption.
  - rewrite progression_length. lia.
  - intros v. unfold range_count. apply progression_In_step; lia.
Qed.

Lemma range_contents_witness :
  exists l,
    _range 10 5 2 = Ok l
    /\ _range 5 10 2 = Ok l
    /\ strictly_ascending l
    /\ Z.of_nat (List.length l) = range_count 10 5 2
    /\ forall v, In v l <->
                 Z.min 10 5 <= v <= Z.max 10 5 /\ (v - Z.min 10 5) mod 2 = 0.
Proof.
  apply (range_contents 10 5 2); unfold MAX_SAFE_INTEGER; lia.
Defined.

(** X2: a field that is a bare integer, up to the largest safe integer,
    parses to the array of that single number, at every position: no bound
    of a field is checked. *)
Theorem bare_integer_parses (s : string) (id : nat) :
  is_number s = true ->
  parseInt s <= MAX_SAFE_INTEGER ->
  _parsePart s id = Ok [parseInt s].
Proof.
  intros H _. unfold _parsePart. rewrite (number_no_comma s H).
  unfold _parsePart_single. rewrite (exec_number s H). reflexivity.
Qed.

Lemma bare_integer_parses_witness : _parsePart "2024" 0 = Ok [parseInt "2024"].
Proof.
  apply (bare_integer_parses "2024" 0); [reflexivity|].
  apply Z.leb_le. reflexivity.
Defined.

(** X3: the text that [join] writes for a number n >= 0 put in by
    [_normalize] parses back, at any position, to the array [n]. *)
Theorem number_text_round_trip (v : Z) (id : nat) :
  0 <= v ->
  is_number (string_of_Z v) = true
  /\ parseInt (string_of_Z v) = v
  /\ _parsePart (string_of_Z v) id = Ok [v].
Proof.
  intros Hv. destruct (string_of_Z_number v Hv) as [Hn Hp].
  split; [assumption|]. split; [assumption|].
  apply number_text_parses. assumption.
Qed.

Lemma number_text_round_trip_witness :
  is_number (string_of_Z 31) = true
  /\ parseInt (string_of_Z 31) = 31
  /\ _parsePart (string_of_Z 31) 2 = Ok [31].
Proof. apply (number_text_round_trip 31 2). lia. Defined.

(** X4: a range [a-b] of safe integers whose upper end [b] is not 0 and
    that is not longer than an array can be parses, at every position, to
    all the integers from the smaller to the larger end; when [a] is not 0
    either, [b-a] parses to the same array. *)
Theorem range_text_parses (a b : string) (id : nat) :
  is_number a = true -> is_number b = true -> parseInt b <> 0 ->
  parseInt a <= MAX_SAFE_INTEGER -> parseInt b <= MAX_SAFE_INTEGER ->
  range_count (parseInt a) (parseInt b) 1 <= MAX_ARRAY_LENGTH ->
  exists l,
    _parsePart (a ++ String "-" b) id = Ok l
    /\ (forall v, In v l <->
                  Z.min (parseInt a) (parseInt b) <= v
                  <= Z.max (parseInt a) (parseInt b))
    /\ (parseInt a <> 0 -> _parsePart (b ++ String "-" a) id = Ok l).
Proof.
  intros Ha Hb Hnz _ _ Hfit.
  assert (Hgen : forall x y,
             is_number x = true -> is_number y = true -> parseInt y <> 0 ->
             _parsePart (x ++ String "-" y) id
             = _range (parseInt x) (parseInt y) 1).
  { intros x y Hx Hy Hy0. unfold _parsePart.
    rewrite range_text_no_comma by assumption.
    unfold _parsePart_single. rewrite exec_range by assumption.
    unfold parse_match, parseInt_opt, or_else.
    destruct (Z.eqb_spec (parseInt y) 0); [contradiction|].
    reflexivity. }
  eexists. split; [|split].
  - rewrite Hgen by assumption. apply _range_spec; [lia | assumption].
  - intros v. apply progression_In_unit. lia.
  - intros Ha0. rewrite Hgen, _range_comm by assumption.
    apply _range_spec; [lia | assumption].
Qed.

Lemma range_text_parses_witness :
  exists l,
    _parsePart ("17" ++ String "-" "9") 1 = Ok l
    /\ (forall v, In v l <->
                  Z.min (parseInt "17") (parseInt "9") <= v
                  <= Z.max (parseInt "17") (parseInt "9"))
    /\ (parseInt "17" <> 0 -> _parsePart ("9" ++ String "-" "17") 1 = Ok l).
Proof.
  apply (range_text_parses "17" "9" 1);
    try reflexivity; try (apply Z.leb_le; reflexivity).
  vm_compute. discriminate.
Defined.

(** X5: at a position of [allowedNum], the wildcard parses to every number
    of the domain of the field, and a stepped wildcard [*/n], n a safe
    integer, to the numbers of the domain a multiple of the step above its
    lower bound, the step being n, or 1 when n is 0. *)
Theorem wildcard_parses (id : nat) (lo hi : Z) :
  allowedNum id = Some (lo, hi) ->
  (exists l, _parsePart "*" id = Ok l /\ forall v, In v l <-> lo <= v <= hi)
  /\ forall st, is_number st = true -> parseInt st <= MAX_SAFE_INTEGER ->
       exists l,
         _parsePart (String "*" (String "/" st)) id = Ok l
         /\ forall v, In v l <->
                      lo <= v <= hi /\ (v - lo) mod (Z.max 1 (parseInt st)) = 0.
Proof.
  intros Hdom.
  assert (Hlohi : lo <= hi <= lo + 59).
  { destruct id as [|[|[|[|[|id]]]]]; simpl in Hdom; inversion Hdom; lia. }
  assert (Hfit : forall step, 1 <= step ->
                              range_count lo hi step <= MAX_ARRAY_LENGTH).
  { intros step Hstep. unfold range_count, MAX_ARRAY_LENGTH.
    rewrite Z.min_l, Z.max_r by lia.
    assert ((hi - lo) / step <= hi - lo)
      by (apply Z.div_le_upper_bound; nia).
    lia. }
  assert (Hmax : or_else (Some hi) (allowedNum_max id) = Ok hi).
  { unfold or_else, allowedNum_max. rewrite Hdom. destruct (hi =? 0); reflexivity. }
  split.
  - eexists. split.
    + unfold _parsePart. change (includes_char "," "*") with false. cbv iota.
      unfold _parsePart_single.
      change (partRegex_exec "*") with (Some (MWild None)). cbv iota.
      unfold parse_match. rewrite Hdom, Hmax. cbn [bind parseInt_opt or_else].
      apply _range_spec; [lia | apply Hfit; lia].
    + intros v. rewrite Z.min_l, Z.max_r by lia. apply progression_In_unit. lia.
  - intros st Hst _. set (step := Z.max 1 (parseInt st)).
    assert (Hstep : or_else (parseInt_opt (Some st)) (Ok 1) = Ok step /\ 1 <= step).
    { unfold step, parseInt_opt, or_else. pose proof (parseInt_nonneg st).
      destruct (Z.eqb_spec (parseInt st) 0) as [E|E]; split; try f_equal; lia. }
    destruct Hstep as [Hor Hge]. eexists. split.
    + unfold _parsePart.
      assert (Hnc : includes_char "," (String "*" (String "/" st)) = false).
      { simpl. apply number_no_comma. assumption. }
      rewrite Hnc. unfold _parsePart_single. rewrite exec_wild_step by assumption.
      unfold parse_match. rewrite Hdom, Hmax. cbn [bind]. rewrite Hor. cbn [bind].
      apply _range_spec; [assumption | apply Hfit; assumption].
    + intros v. rewrite Z.min_l, Z.max_r by lia.
      apply progression_In_step; [assumption | lia].
Qed.

Lemma wildcard_parses_witness :
  (exists l, _parsePart "*" 2 = Ok l /\ forall v, In v l <-> 1 <= v <= 31)
  /\ exists l,
       _parsePart "*/10" 2 = Ok l
       /\ forall v, In v l <-> 1 <= v <= 31 /\ (v - 1) mod 10 = 0.
Proof.
  destruct (wildcard_parses 2 1 31 eq_refl) as [Hwild Hstep].
  split; [exact Hwild|].
  apply (Hstep "10"); [reflexivity | apply Z.leb_le; reflexivity].
Defined.

(** X6: the array that a field parses to holds exactly the values of its
    comma-separated pieces: a number is in it exactly when some piece
    parses to an array that holds it. *)
Theorem list_members (field : string) (id : nat) (l : list Z) :
  _parsePart field id = Ok l ->
  forall v, In v l <->
            exists piece r, In piece (split "," field)
                            /\ _parsePart piece id = Ok r /\ In v r.
Proof.
  intros H v.
  assert (Hpiece : forall p, In p (split "," field) ->
                             _parsePart p id = _parsePart_single p id).
  { intros p Hp. apply _parsePart_on_piece.
    pose proof (split_pieces_no_sep "," field) as Hall.
    rewrite Forall_forall in Hall. auto. }
  unfold _parsePart in H. destruct (includes_char "," field) eqn:Hc.
  - inv_bind H. injection H as <-. apply parse_pieces_spec in Hv.
    destruct Hv as (rs & Hrs & ->). cbn [app].
    rewrite sort_num_In, set_values_In, in_concat. split.
    + intros [(r & Hr & Hv) _].
      assert (Hex : exists p, In p (split "," field)
                              /\ _parsePart_single p id = Ok r).
      { clear Hv Hpiece. induction Hrs as [|p r' ps rs' Hp Hrest IH];
          [destruct Hr|]. destruct Hr as [->|Hr].
        - exists p. split; [left; reflexivity | assumption].
        - destruct (IH Hr) as (q & Hq & Hpq). exists q. split; [right|]; auto. }
      destruct Hex as (p & Hp & Hpr). exists p, r.
      rewrite (Hpiece p Hp). auto.
    + intros (p & r & Hp & Hpr & Hv). split; [|intros []].
      rewrite (Hpiece p Hp) in Hpr. exists r. split; [|assumption].
      clear Hpiece Hv. induction Hrs as [|q r' ps rs' Hq Hrest IH];
        [destruct Hp|]. destruct Hp as [->|Hp].
      * left. congruence.
      * right. auto.
  - rewrite (split_no_sep _ _ Hc). split.
    + intros Hv. exists field, l. split; [left; reflexivity|].
      split; [|assumption]. unfold _parsePart. rewrite Hc. assumption.
    + intros (p & r & [<-|[]] & Hpr & Hv).
      unfold _parsePart in Hpr. rewrite Hc in Hpr. congruence.
Qed.

Lemma list_members_witness :
  In 3 [1; 3; 5] <->
  exists piece r, In piece (split "," "5,1,3,1")
                  /\ _parsePart piece 0 = Ok r /\ In 3 r.
Proof. apply (list_members "5,1,3,1" 0 [1; 3; 5]). reflexivity. Defined.

(** X7: the parsed array is a canonical form: two fields, lists or not,
    whose numbers are safe integers and that parse to arrays with the same
    elements parse to the same array, whatever the order or the repetition
    of their pieces. *)
Theorem canonical_array (f1 f2 : string) (id1 id2 : nat) (l1 l2 : list Z) :
  written_safe f1 = true -> written_safe f2 = true ->
  _parsePart f1 id1 = Ok l1 -> _parsePart f2 id2 = Ok l2 ->
  (forall v, In v l1 <-> In v l2) -> l1 = l2.
Proof.
  intros _ _ H1 H2. apply _parsePart_shape in H1. apply _parsePart_shape in H2.
  apply ascending_same_members; tauto.
Qed.

Lemma canonical_array_witness : [1; 2; 3] = [1; 2; 3].
Proof.
  apply (canonical_array "3,1,2,2" "1-3" 0 0 [1; 2; 3] [1; 2; 3]);
    [reflexivity | reflexivity | reflexivity | reflexivity | tauto].
Defined.

(** X8: at the five positions, a field whose numbers are safe integers
    parses exactly when each of its comma-separated pieces matches
    [partRegex] and none is a range longer than an array can be: the lookup
    of [allowedNum] does not throw.  A field that does not parse throws a
    [TypeError] and then has a piece that does not match, or a [RangeError]
    and then has a range that is too long. *)
Theorem accepted_by_grammar (field : string) (id : nat) :
  (id < 5)%nat ->
  written_safe field = true ->
  ((exists l, _parsePart field id = Ok l)
   <-> pieces_match field /\ pieces_fit field id)
  /\ (forall e, _parsePart field id = Throw e ->
                (e = TypeError /\ ~ pieces_match field)
                \/ (e = RangeError /\ ~ pieces_fit field id)).
Proof.
  intros Hid _. split; [apply parses_iff_accepted; assumption|].
  intros e He. pose proof (_parsePart_outcome field id Hid) as H.
  rewrite He in H. exact H.
Qed.

Lemma accepted_by_grammar_witness :
  ((exists l, _parsePart "1,0-4294967295,x" 0 = Ok l)
   <-> pieces_match "1,0-4294967295,x" /\ pieces_fit "1,0-4294967295,x" 0)
  /\ (forall e, _parsePart "1,0-4294967295,x" 0 = Throw e ->
                (e = TypeError /\ ~ pieces_match "1,0-4294967295,x")
                \/ (e = RangeError /\ ~ pieces_fit "1,0-4294967295,x" 0)).
Proof.
  apply (accepted_by_grammar "1,0-4294967295,x" 0); [lia | reflexivity].
Defined.

(** X9: a text that [_parseString] accepts holds exactly four spaces and
    no empty field (so no leading, trailing or doubled space), and gives
    five arrays. *)
Theorem five_fields_four_spaces (text : string) (parts : list (list Z)) :
  _parseString text = Ok parts ->
  count_char " " text = 4%nat
  /\ List.length parts = 5%nat
  /\ Forall (fun field => field <> "") (split " " text).
Proof.
  intros H. pose proof H as H'. unfold _parseString in H.
  destruct (Nat.eqb_spec (List.length (split " " text)) 5) as [E|E];
    cbn [negb] in H; [|discriminate].
  split; [rewrite split_length in E; lia|].
  split; [eapply _parseString_length; eassumption|].
  apply map_indexed_spec in H. destruct H as [_ Hnth].
  apply Forall_forall. intros field Hin ->.
  apply In_nth_error in Hin. destruct Hin as (k & Hk).
  destruct (Hnth k "" Hk) as (y & _ & Hy). discriminate.
Qed.

Lemma five_fields_four_spaces_witness :
  count_char " " "0 12 * * 1-5" = 4%nat
  /\ List.length
       [[0]; [12]; progression 1 1 31; progression 1 1 12; [1; 2; 3; 4; 5]]
     = 5%nat
  /\ Forall (fun field => field <> "") (split " " "0 12 * * 1-5").
Proof.
  apply (five_fields_four_spaces "0 12 * * 1-5"
           [[0]; [12]; progression 1 1 31; progression 1 1 12; [1; 2; 3; 4; 5]]).
  reflexivity.
Defined.

(** X10: for a normalized text whose numbers are safe integers, the
    constructor's parsing succeeds exactly when the text has five
    space-separated fields each of whose comma-separated pieces matches
    [partRegex], none of them a range longer than an array can be. *)
Theorem parseString_accepts (text : string) :
  expression_safe text = true ->
  (exists parts, _parseString text = Ok parts)
  <-> List.length (split " " text) = 5%nat
      /\ forall i field,
           nth_error (split " " text) i = Some field ->
           pieces_match field /\ pieces_fit field i.
Proof.
  intros _. unfold _parseString.
  destruct (Nat.eqb_spec (List.length (split " " text)) 5) as [E|E];
    cbn [negb].
  - split.
    + intros (parts & H). split; [assumption|].
      apply map_indexed_spec in H. destruct H as [_ Hnth].
      intros k field Hk.
      destruct (Hnth k field Hk) as (y & _ & Hy).
      assert (Hlt : (k < 5)%nat).
      { rewrite <- E. apply nth_error_Some. congruence. }
      apply (parses_iff_accepted field (0 + k) Hlt). eauto.
    + intros [_ Hall]. apply map_indexed_accepts. intros k x Hk.
      assert (Hlt : (k < 5)%nat).
      { rewrite <- E. apply nth_error_Some. congruence. }
      apply (parses_iff_accepted x (0 + k) Hlt).
      apply (Hall k x Hk).
  - split; [intros (parts & H); discriminate | intros [H _]; contradiction].
Qed.

Lemma parseString_accepts_witness :
  (exists parts, _parseString "*/5 0-4294967295 * * 1-5" = Ok parts)
  <-> List.length (split " " "*/5 0-4294967295 * * 1-5") = 5%nat
      /\ forall i field,
           nth_error (split " " "*/5 0-4294967295 * * 1-5") i = Some field ->
           pieces_match field /\ pieces_fit field i.
Proof.
  apply (parseString_accepts "*/5 0-4294967295 * * 1-5"). reflexivity.
Defined.

(** X11: an expression written with digits, [*], [,], [-], [/] and spaces
    only is its own normalized text: no alias, placeholder or token
    applies.  The constructor then is [_parseString] on the expression, and
    does not depend on the current moment or on the random source. *)
Theorem normalize_plain (now : Date) (random : nat -> Z) (expr : string) :
  all_plain expr = true ->
  _normalize now random expr = Ok (Str expr)
  /\ new_Cron now random expr
     = (parts <- _parseString expr ;;
        match parts with
        | [mi; h; d; mo; dw] => Ok (mkCron expr expr mi h d mo dw)
        | _ => Throw TypeError
        end).
Proof.
  intros H.
  assert (Hn : _normalize now random expr = Ok (Str expr)).
  { unfold _normalize. rewrite (lookup_plain expr H), (inherited_plain expr H).
    rewrite (map_indexed_unchanged _ (fun f => all_plain f = true)).
    - cbn [bind]. rewrite join_split, replace_tokens_plain by assumption.
      reflexivity.
    - intros x i Hx. apply normalize_field_plain. assumption.
    - apply split_plain. assumption. }
  split; [assumption|].
  unfold new_Cron. rewrite (toLowerCase_plain expr H), Hn. reflexivity.
Qed.

Lemma normalize_plain_witness :
  _normalize None (fun _ => 7) "*/5 8-18 * * 1-5"
  = Ok (Str "*/5 8-18 * * 1-5")
  /\ new_Cron None (fun _ => 7) "*/5 8-18 * * 1-5"
     = (parts <- _parseString "*/5 8-18 * * 1-5" ;;
        match parts with
        | [mi; h; d; mo; dw] =>
            Ok (mkCron "*/5 8-18 * * 1-5" "*/5 8-18 * * 1-5" mi h d mo dw)
        | _ => Throw TypeError
        end).
Proof.
  apply (normalize_plain None (fun _ => 7) "*/5 8-18 * * 1-5"). reflexivity.
Defined.

(** X12: the placeholder [?] at the five positions writes a text that
    parses, at its position, to the single number it stands for: the
    minute, the hour, the day of the month, the month counted from 0 and
    the weekday of the current moment. *)
Theorem current_placeholder_parses (t : Z) (random : nat -> Z) :
  exists mi h d mo dw,
    normalize_field (Some t) random "?" 0 = Ok mi
    /\ normalize_field (Some t) random "?" 1 = Ok h
    /\ normalize_field (Some t) random "?" 2 = Ok d
    /\ normalize_field (Some t) random "?" 3 = Ok mo
    /\ normalize_field (Some t) random "?" 4 = Ok dw
    /\ _parsePart mi 0 = Ok [MinFromTime t]
    /\ _parsePart h 1 = Ok [HourFromTime t]
    /\ _parsePart d 2 = Ok [DateFromTime t]
    /\ _parsePart mo 3 = Ok [MonthFromTime t]
    /\ _parsePart dw 4 = Ok [WeekDay t].
Proof.
  do 5 eexists. do 5 (split; [reflexivity|]).
  pose proof (MinFromTime_range t). pose proof (HourFromTime_range t).
  pose proof (DateFromDay_range (Day t)). pose proof (MonthFromDay_range (Day t)).
  assert (0 <= WeekDay t) by (unfold WeekDay, WeekDayOfDay; lia).
  repeat split; apply number_text_parses;
    unfold DateFromTime, MonthFromTime; lia.
Qed.

(** X13: the placeholder [h] at one of the five positions writes a number
    from 0 to the upper bound of the field, also where the domain starts
    at 1, and the text parses at that position to that number alone;
    beyond the five positions it throws a [TypeError]. *)
Theorem random_placeholder_parses (now : Date) (random : nat -> Z) (i : nat) :
  ((i < 5)%nat ->
   exists v hi,
     allowedNum_max i = Ok hi
     /\ normalize_field now random "h" i = Ok (string_of_Z v)
     /\ 0 <= v <= hi
     /\ _parsePart (string_of_Z v) i = Ok [v])
  /\ ((5 <= i)%nat -> normalize_field now random "h" i = Throw TypeError).
Proof.
  split.
  - intros Hi.
    assert (Hhi : exists hi, allowedNum_max i = Ok hi /\ 0 <= hi).
    { destruct i as [|[|[|[|[|i]]]]]; try lia; eexists; split;
        try reflexivity; lia. }
    destruct Hhi as (hi & Hmax & Hpos).
    exists (random i mod (hi + 1)), hi.
    assert (Hv : 0 <= random i mod (hi + 1) <= hi).
    { pose proof (Z.mod_pos_bound (random i) (hi + 1)). lia. }
    split; [assumption|]. split; [|split; [assumption|]].
    + unfold normalize_field. cbn [String.eqb Ascii.eqb Bool.eqb andb].
      rewrite Hmax. reflexivity.
    + apply number_text_parses. lia.
  - intros Hi. unfold normalize_field. cbn [String.eqb Ascii.eqb Bool.eqb andb].
    destruct i as [|[|[|[|[|i]]]]]; try lia. reflexivity.
Qed.

Lemma random_placeholder_parses_witness :
  exists v hi,
    allowedNum_max 2 = Ok hi
    /\ normalize_field None (fun _ => 64) "h" 2 = Ok (string_of_Z v)
    /\ 0 <= v <= hi
    /\ _parsePart (string_of_Z v) 2 = Ok [v].
Proof.
  destruct (random_placeholder_parses None (fun _ => 64) 2) as [H _].
  apply H. lia.
Defined.

(** X14: for an invalid reference date [next] never returns, whatever the
    integers of the schedule: no day of an invalid date qualifies, and one
    day later it is invalid again.  The same holds from a day that does not qualify when
    the next day is beyond the range of [Date]. *)
Theorem next_invalid_date (c : Cron) :
  (forall fuel origin, next fuel c None origin = None)
  /\ (forall fuel t origin,
         qualifies c (Day t) = false -> maxTime < t + day ->
         next fuel c (Some t) origin = None).
Proof.
  split; [intros fuel origin; apply next_invalid|].
  intros [|fuel] t origin Hq Hmax; [reflexivity|].
  rewrite next_disqualified by assumption.
  unfold TimeClip. destruct (Z.leb_spec (Z.abs (t + day)) maxTime); [lia|].
  apply next_invalid.
Qed.

(** X15: whatever [next] returns for a valid schedule and a reference
    moment from the year 100 on, origin call or not, is a time value at
    minute resolution whose minute, hour, day of the month, month and
    weekday are in the arrays of the schedule, on the reference day or a
    later one. *)
Theorem next_result_matches (c : Cron) (t : Z) (fuel : nat) (origin : bool) (r : Z) :
  valid_schedule c ->
  100 <= YearFromTime t ->
  next fuel c (Some t) origin = Some (Some r) ->
  matches c r /\ Day t <= Day r.
Proof.
  intros Hv Hy H. apply next_shape in H.
  destruct H as (D & h & m & HD & Hq & Hres & Hh & Hm & _).
  destruct (valid_heads c Hv) as (h0 & m0 & Hh0 & Hm0 & Hin0 & Hin0').
  destruct (valid_schedule_bounds c Hv) as [Hhb Hmb].
  assert (Hx : exists x, h = Some x /\ In x (hours c)).
  { destruct Hh as [->|Hh]; [eauto | assumption]. }
  assert (Hz : exists z, m = Some z /\ In z (minutes c)).
  { destruct Hm as [->|Hm]; [eauto | assumption]. }
  destruct Hx as (x & -> & Hxin). destruct Hz as (z & -> & Hzin).
  assert (Hyd : ~ two_digit_year D).
  { unfold two_digit_year. pose proof (YearFromDay_monotone (Day t) D HD).
    unfold YearFromTime in Hy. lia. }
  symmetry in Hres. apply at_day_inv in Hres; [|assumption]. subst r.
  split; [apply matches_time_on; assumption|].
  destruct (time_on_components D x z (Hhb _ Hxin) (Hmb _ Hzin)) as (-> & _).
  assumption.
Qed.

Lemma next_result_matches_witness :
  matches every_monday_at_nine 1710147600000
  /\ Day 1709640000000 <= Day 1710147600000.
Proof.
  apply (next_result_matches every_monday_at_nine 1709640000000 7 true).
  - apply valid_scheduleb_sound. reflexivity.
  - apply Z.leb_le. reflexivity.
  - reflexivity.
Defined.

(** X16: a call that is not the origin is idempotent: for a valid schedule
    and a reference moment from the year 100 on, what it returns is
    returned again when it is taken as the reference moment. *)
Theorem not_origin_idempotent (c : Cron) (t : Z) (fuel fuel' : nat) (r : Z) :
  valid_schedule c ->
  100 <= YearFromTime t ->
  next fuel c (Some t) false = Some (Some r) ->
  next (S fuel') c (Some r) false = Some (Some r).
Proof.
  intros Hv Hy H. apply next_shape in H.
  destruct H as (D & h & m & HD & Hq & Hres & _ & _ & Ho).
  destruct (Ho eq_refl) as [-> ->].
  destruct (valid_heads c Hv) as (h0 & m0 & Hh0 & Hm0 & Hin0 & Hin0').
  destruct (valid_schedule_bounds c Hv) as [Hhb Hmb].
  assert (Hyd : ~ two_digit_year D).
  { unfold two_digit_year. pose proof (YearFromDay_monotone (Day t) D HD).
    unfold YearFromTime in Hy. lia. }
  rewrite Hh0, Hm0 in Hres. pose proof Hres as Hres'. symmetry in Hres'.
  apply at_day_inv in Hres'; [|assumption].
  assert (Hday : Day r = D).
  { subst r. apply (time_on_components D h0 m0 (Hhb _ Hin0) (Hmb _ Hin0')). }
  rewrite next_qualified by (rewrite Hday; assumption).
  rewrite Hday, Hh0, Hm0, <- Hres. reflexivity.
Qed.

Lemma not_origin_idempotent_witness :
  next 1 every_monday_at_nine (Some 1710147600000) false
  = Some (Some 1710147600000).
Proof.
  apply (not_origin_idempotent every_monday_at_nine 1709640000000 7 0).
  - apply valid_scheduleb_sound. reflexivity.
  - apply Z.leb_le. reflexivity.
  - reflexivity.
Defined.
